(** * Verification of the ttb-verifier job queue, worker and Ollama gate

    Shallow embedding of [app/queue_manager.py] (SQLite-backed queue),
    [app/job_manager.py] (file-based batch job store), [app/worker.py]
    (queue worker loop), [app/label_validator.py] ([validate_label]),
    [app/ocr_backends.py] ([OllamaOCR.extract_text] / [_do_extract]) and
    [app/api.py] ([process_batch_job], the DELETE batch endpoint).

    Conventions:
    - timestamps ([time.time()], [datetime.utcnow()]) are [Z]; the queue
      uses seconds, the lock wait loop uses milliseconds;
    - the table [verify_jobs] is a list of rows in rowid order;
    - Python dicts exchanged between the modules are association lists
      of [pyval]s; JSON columns hold the decoded value (json.dumps and
      json.loads round-trip on these values). *)

From Stdlib Require Import String Ascii List ZArith Bool Lia.
From Equations Require Import Equations.
Import ListNotations.
Local Open Scope Z_scope.
Set Warnings "-register-all".

(** ** Python values *)

Inductive pyval : Type :=
| PyNone
| PyBool (b : bool)
| PyInt (z : Z)
| PyStr (s : string)
| PyDict (d : list (string * pyval)).

Definition pydict := list (string * pyval).

(** [d.get(k)] *)
Definition dict_get (d : pydict) (k : string) : option pyval :=
  match find (fun kv => String.eqb (fst kv) k) d with
  | Some (_, v) => Some v
  | None => None
  end.

(** [d[k] = v]: replaces an existing key in place, appends otherwise. *)
Definition dict_set (d : pydict) (k : string) (v : pyval) : pydict :=
  if existsb (fun kv => String.eqb (fst kv) k) d
  then map (fun kv => if String.eqb (fst kv) k then (k, v) else kv) d
  else d ++ [(k, v)].

(** [bool(v)] *)
Definition py_truthy (v : pyval) : bool :=
  match v with
  | PyNone => false
  | PyBool b => b
  | PyInt z => negb (z =? 0)
  | PyStr s => negb (String.eqb s EmptyString)
  | PyDict d => match d with [] => false | _ => true end
  end.

(** [if ground_truth:] on an [Optional[Dict]] *)
Definition gt_truthy (gt : option pydict) : bool :=
  match gt with Some d => py_truthy (PyDict d) | None => false end.

(** ** The [verify_jobs] table of [QueueManager] *)

Inductive job_status : Type :=
| Pending | Processing | Completed | Failed | Cancelled.

Definition job_status_eqb (a b : job_status) : bool :=
  match a, b with
  | Pending, Pending | Processing, Processing | Completed, Completed
  | Failed, Failed | Cancelled, Cancelled => true
  | _, _ => false
  end.

Lemma job_status_eqb_eq (a b : job_status) : job_status_eqb a b = true <-> a = b.
Proof. destruct a, b; simpl; split; congruence. Qed.

Record job_row : Type := mk_row {
  id : string;
  status : job_status;
  attempts : nat;
  max_attempts : nat;
  image_path : string;
  ground_truth : option pydict;
  result : option pydict;
  error : option string;
  created_at : Z;
  updated_at : Z;
  completed_at : option Z
}.

Definition table := list job_row.

Definition is_pending (r : job_row) : bool := job_status_eqb (status r) Pending.

(** [status IN ('completed', 'failed', 'cancelled')] *)
Definition is_terminal (r : job_row) : bool :=
  match status r with
  | Completed | Failed | Cancelled => true
  | Pending | Processing => false
  end.

Definition has_id (j : string) (r : job_row) : bool := String.eqb (id r) j.

(** [SELECT ... WHERE id = ?] followed by [fetchone()] *)
Definition lookup (j : string) (db : table) : option job_row := find (has_id j) db.

(** [UPDATE verify_jobs SET ... WHERE p]: returns [cursor.rowcount] and the
    new table. *)
Fixpoint update_where (p : job_row -> bool) (f : job_row -> job_row) (db : table)
  : nat * table :=
  match db with
  | [] => (0%nat, [])
  | r :: rest =>
      let '(n, rest') := update_where p f rest in
      if p r then (S n, f r :: rest') else (n, r :: rest')
  end.

(** [DELETE FROM verify_jobs WHERE p]: returns [cursor.rowcount] and the
    new table. *)
Fixpoint delete_where (p : job_row -> bool) (db : table) : nat * table :=
  match db with
  | [] => (0%nat, [])
  | r :: rest =>
      let '(n, rest') := delete_where p rest in
      if p r then (S n, rest') else (n, r :: rest')
  end.

(** [SELECT * FROM verify_jobs WHERE status = 'pending'
     ORDER BY created_at ASC LIMIT 1]; ties go to the earlier row. *)
Fixpoint oldest_pending (db : table) : option job_row :=
  match db with
  | [] => None
  | r :: rest =>
      match oldest_pending rest with
      | None => if is_pending r then Some r else None
      | Some o =>
          if is_pending r && (created_at r <=? created_at o) then Some r else Some o
      end
  end.

(** *** QueueManager operations *)

(** [enqueue]: [INSERT] of a fresh row; [now] is [time.time()] and
    [job_id] the generated UUID.  A duplicate primary key makes the
    [INSERT] raise [sqlite3.IntegrityError] ([None]).  The ground truth is
    stored as [json.dumps(ground_truth) if ground_truth else None]: an empty
    dict is stored as [NULL]. *)
Definition enqueue (qm_max_attempts : nat) (job_id img : string)
    (gt : option pydict) (now : Z) (db : table) : option table :=
  if existsb (has_id job_id) db then None
  else Some (db ++ [{| id := job_id; status := Pending; attempts := 0;
                       max_attempts := qm_max_attempts; image_path := img;
                       ground_truth := if gt_truthy gt then gt else None;
                       result := None; error := None;
                       created_at := now; updated_at := now;
                       completed_at := None |}]).

(** [SET status = 'processing', attempts = attempts + 1, updated_at = ?] *)
Definition claim_row (now : Z) (r : job_row) : job_row :=
  {| id := id r; status := Processing; attempts := S (attempts r);
     max_attempts := max_attempts r; image_path := image_path r;
     ground_truth := ground_truth r; result := result r; error := error r;
     created_at := created_at r; updated_at := now;
     completed_at := completed_at r |}.

(** The dict returned by [dequeue]: [dict(row)] with [attempts += 1] and
    [status = "processing"] (its [updated_at] is the one read by the
    [SELECT]). *)
Definition claimed_job (r : job_row) : job_row :=
  {| id := id r; status := Processing; attempts := S (attempts r);
     max_attempts := max_attempts r; image_path := image_path r;
     ground_truth := ground_truth r; result := result r; error := error r;
     created_at := created_at r; updated_at := updated_at r;
     completed_at := completed_at r |}.

(** Python's [sqlite3] module (legacy transaction control, its default)
    opens a transaction implicitly only before INSERT, UPDATE, DELETE and
    REPLACE.  The [SELECT] of [dequeue] therefore runs on its own, and the
    [UPDATE ... WHERE id = ?] is a second, separate atomic step on the
    shared table. *)
Definition dequeue_select (db : table) : option job_row := oldest_pending db.

Definition dequeue_update (now : Z) (row : job_row) (db : table)
  : option job_row * table :=
  (Some (claimed_job row), snd (update_where (has_id (id row)) (claim_row now) db)).

Definition dequeue (now : Z) (db : table) : option job_row * table :=
  match dequeue_select db with
  | None => (None, db)
  | Some row => dequeue_update now row db
  end.

Definition complete_row (res : pydict) (now : Z) (r : job_row) : job_row :=
  {| id := id r; status := Completed; attempts := attempts r;
     max_attempts := max_attempts r; image_path := image_path r;
     ground_truth := ground_truth r; result := Some res; error := None;
     created_at := created_at r; updated_at := now;
     completed_at := Some now |}.

Definition complete (job_id : string) (res : pydict) (now : Z) (db : table) : table :=
  snd (update_where (has_id job_id) (complete_row res now) db).

Definition requeue_row (err : string) (now : Z) (r : job_row) : job_row :=
  {| id := id r; status := Pending; attempts := attempts r;
     max_attempts := max_attempts r; image_path := image_path r;
     ground_truth := ground_truth r; result := result r; error := Some err;
     created_at := created_at r; updated_at := now;
     completed_at := completed_at r |}.

Definition fail_row (err : string) (now : Z) (r : job_row) : job_row :=
  {| id := id r; status := Failed; attempts := attempts r;
     max_attempts := max_attempts r; image_path := image_path r;
     ground_truth := ground_truth r; result := result r; error := Some err;
     created_at := created_at r; updated_at := now;
     completed_at := Some now |}.

Definition fail (job_id : string) (err : string) (now : Z) (db : table) : table :=
  match lookup job_id db with
  | None => db
  | Some row =>
      if (attempts row <? max_attempts row)%nat
      then snd (update_where (has_id job_id) (requeue_row err now) db)
      else snd (update_where (has_id job_id) (fail_row err now) db)
  end.

Definition cancel_row (now : Z) (r : job_row) : job_row :=
  {| id := id r; status := Cancelled; attempts := attempts r;
     max_attempts := max_attempts r; image_path := image_path r;
     ground_truth := ground_truth r; result := result r; error := error r;
     created_at := created_at r; updated_at := now;
     completed_at := completed_at r |}.

(** [UPDATE ... WHERE id = ? AND status = 'pending']; returns
    [cursor.rowcount > 0]. *)
Definition cancel (job_id : string) (now : Z) (db : table) : bool * table :=
  let '(n, db') :=
    update_where (fun r => has_id job_id r && is_pending r) (cancel_row now) db in
  ((0 <? n)%nat, db').

(** [cutoff = time.time() - retention_seconds]; [DELETE ... WHERE status IN
    ('completed','failed','cancelled') AND updated_at < cutoff]. *)
Definition cleanup_old_jobs (retention_seconds : Z) (now : Z) (db : table)
  : nat * table :=
  let cutoff := now - retention_seconds in
  delete_where (fun r => is_terminal r && (updated_at r <? cutoff)) db.

(** [SELECT COUNT of rows ... WHERE status = 'pending'] *)
Definition queue_depth (db : table) : nat := length (filter is_pending db).

(** Sequential use of the queue: one operation after the other. *)
Inductive queue_op : Type :=
| OpEnqueue (job_id img : string) (gt : option pydict) (now : Z)
| OpDequeue (now : Z)
| OpComplete (job_id : string) (res : pydict) (now : Z)
| OpFail (job_id err : string) (now : Z)
| OpCancel (job_id : string) (now : Z)
| OpCleanup (retention_seconds now : Z).

(** An operation that raises leaves the table unchanged (its transaction is
    rolled back by [_db]). *)
Definition apply_op (qm_max_attempts : nat) (op : queue_op) (db : table) : table :=
  match op with
  | OpEnqueue j img gt now =>
      match enqueue qm_max_attempts j img gt now db with
      | Some db' => db'
      | None => db
      end
  | OpDequeue now => snd (dequeue now db)
  | OpComplete j res now => complete j res now db
  | OpFail j err now => fail j err now db
  | OpCancel j now => snd (cancel j now db)
  | OpCleanup ret now => snd (cleanup_old_jobs ret now db)
  end.

(** The table after a sequence of operations on a fresh database. *)
Definition run_ops (qm_max_attempts : nat) (ops : list queue_op) : table :=
  fold_left (fun db op => apply_op qm_max_attempts op db) ops [].

Definition is_fail_of (j : string) (op : queue_op) : bool :=
  match op with
  | OpFail j' _ _ => String.eqb j' j
  | _ => false
  end.

(** *** Concurrent [dequeue] callers

    Each caller (a process with its own connection) runs [dequeue] as its
    two atomic steps on the shared table: the [SELECT], then the
    [UPDATE ... WHERE id = ?] and return.  A schedule says which caller
    takes the next step. *)
Inductive dq_thread : Type :=
| DqStart
| DqSelected (row : option job_row)
| DqReturned (job : option job_row).

Definition dq_step (now : Z) (th : dq_thread) (db : table) : dq_thread * table :=
  match th with
  | DqStart => (DqSelected (dequeue_select db), db)
  | DqSelected None => (DqReturned None, db)
  | DqSelected (Some row) =>
      let '(j, db') := dequeue_update now row db in (DqReturned j, db')
  | DqReturned j => (DqReturned j, db)
  end.

(** [false] schedules the first caller, [true] the second. *)
Fixpoint run_schedule (now : Z) (sched : list bool)
    (a b : dq_thread) (db : table) : dq_thread * dq_thread * table :=
  match sched with
  | [] => (a, b, db)
  | false :: rest => let '(a', db') := dq_step now a db in run_schedule now rest a' b db'
  | true :: rest => let '(b', db') := dq_step now b db in run_schedule now rest a b' db'
  end.

(** ** [JobManager] (file-based batch jobs) *)

(** The fields of [BatchJob] that [cleanup_old_jobs] reads. *)
Record batch_job : Type := mk_batch_job {
  batch_job_id : string;
  batch_status : job_status;
  batch_created_at : Z;
  batch_updated_at : Z;
  batch_completed_at : option Z
}.

(** One [*.json] file of [jobs_dir]: [None] when reading or decoding it
    raises (the loop logs the error and leaves the file alone). *)
Definition job_file := option batch_job.

Definition batch_is_terminal (b : batch_job) : bool :=
  match batch_status b with
  | Completed | Failed | Cancelled => true
  | Pending | Processing => false
  end.

(** [if job.completed_at and job.completed_at < cutoff_time] *)
Definition batch_expired (cutoff : Z) (b : batch_job) : bool :=
  batch_is_terminal b &&
  match batch_completed_at b with
  | Some c => c <? cutoff
  | None => false
  end.

(** The loop over [jobs_dir.glob("*.json")]: the deleted count and the
    files left. *)
Fixpoint jm_sweep (cutoff : Z) (files : list job_file) : nat * list job_file :=
  match files with
  | [] => (0%nat, [])
  | f :: rest =>
      let '(n, rest') := jm_sweep cutoff rest in
      match f with
      | Some b => if batch_expired cutoff b then (S n, rest') else (n, f :: rest')
      | None => (n, f :: rest')
      end
  end.

(** [JobManager.cleanup_old_jobs]: [cutoff_time = utcnow() - timedelta(hours)],
    time in seconds. *)
Definition jm_cleanup_old_jobs (retention_hours : Z) (now : Z) (files : list job_file)
  : nat * list job_file :=
  jm_sweep (now - retention_hours * 3600) files.

(** ** Strings as Python handles them *)

Definition ascii_lower (c : ascii) : ascii :=
  let n := nat_of_ascii c in
  if (65 <=? n)%nat && (n <=? 90)%nat then ascii_of_nat (n + 32) else c.

(** [s.lower()] on ASCII text *)
Fixpoint str_lower (s : string) : string :=
  match s with
  | EmptyString => EmptyString
  | String c s' => String (ascii_lower c) (str_lower s')
  end.

(** [sub in s] *)
Fixpoint str_contains (sub s : string) : bool :=
  match s with
  | EmptyString => String.prefix sub s
  | String _ s' => String.prefix sub s || str_contains sub s'
  end.

Definition is_space (c : ascii) : bool :=
  match nat_of_ascii c with
  | 32 | 9 | 10 | 11 | 12 | 13 => true
  | _ => false
  end%nat.

Fixpoint drop_spaces (l : list ascii) : list ascii :=
  match l with
  | c :: l' => if is_space c then drop_spaces l' else l
  | [] => []
  end.

(** [s.strip()] on ASCII whitespace *)
Definition str_strip (s : string) : string :=
  string_of_list_ascii
    (rev (drop_spaces (rev (drop_spaces (list_ascii_of_string s))))).

Fixpoint str_concat (l : list string) : string :=
  match l with
  | [] => EmptyString
  | s :: l' => (s ++ str_concat l')%string
  end.

Definition digit_char (d : nat) : ascii := ascii_of_nat (48 + d).

Fixpoint nat_to_string_aux (fuel n : nat) (acc : string) : string :=
  match fuel with
  | O => acc
  | S fuel' =>
      let acc' := String (digit_char (n mod 10)) acc in
      if (n <? 10)%nat then acc' else nat_to_string_aux fuel' (n / 10) acc'
  end.

(** [str(n)] for an [int] *)
Definition z_to_string (z : Z) : string :=
  let s := nat_to_string_aux (S (Z.to_nat (Z.abs z))) (Z.to_nat (Z.abs z)) EmptyString in
  if z <? 0 then String "-" s else s.

(** [Path(p).name]: the text after the last slash. *)
Fixpoint path_name_aux (s : string) (cur : string) : string :=
  match s with
  | EmptyString => cur
  | String c s' =>
      if Ascii.eqb c "/"%char then path_name_aux s' EmptyString
      else path_name_aux s' (cur ++ String c EmptyString)%string
  end.

Definition path_name (p : string) : string := path_name_aux p EmptyString.

(** A call that returns a value or raises an exception (type name and
    [str(e)]). *)
Inductive call_result (A : Type) : Type :=
| Returns (v : A)
| Raises (type_name msg : string).
Arguments Returns {A} v.
Arguments Raises {A} type_name msg.

(** [except RuntimeError]: the built-in classes it catches. *)
Definition is_runtime_error (type_name : string) : bool :=
  existsb (String.eqb type_name) ["RuntimeError"; "NotImplementedError"; "RecursionError"]%string.

(** ** [OllamaOCR] *)

Local Open Scope string_scope.

Record ollama_ocr : Type := mk_ollama {
  model : string;
  host : string;
  timeout : Z          (* seconds *)
}.

(** [httpx.Timeout(timeout=float(timeout), connect=10.0)]: [connect] is
    10 s, [read], [write] and [pool] take the configured timeout. *)
Record httpx_timeout : Type := mk_httpx_timeout {
  connect_bound : Z;
  read_bound : Z;
  write_bound : Z;
  pool_bound : Z
}.

Definition client_timeout (o : ollama_ocr) : httpx_timeout :=
  {| connect_bound := 10; read_bound := timeout o;
     write_bound := timeout o; pool_bound := timeout o |}.

(** *** Cross-process gate ([flock] wait loop), time in milliseconds *)

Definition lock_wait_seconds : Z := 30.
Definition lock_poll_interval_ms : Z := 200.

(** One [fcntl.flock(lock_fd, fcntl.LOCK_EX | fcntl.LOCK_NB)]. *)
Inductive flock_outcome : Type :=
| FlockAcquired                          (* the lock is taken *)
| FlockBlocking                          (* BlockingIOError: another holder *)
| FlockRaises (type_name msg : string).  (* any other exception, not caught *)

(** [while time.time() < lock_deadline: try flock(LOCK_EX | LOCK_NB) ...
    except BlockingIOError: time.sleep(0.2)].  [flock_try t] is the outcome
    of the non-blocking [flock] tried at time [t]; the clock only moves by
    the sleeps.  The result is [lock_acquired] (or the exception that leaves
    the loop) and the time at exit. *)
Equations? lock_wait (flock_try : Z -> flock_outcome) (deadline t : Z) : call_result bool * Z
  by wf (Z.to_nat (deadline - t)) lt :=
lock_wait flock_try deadline t with Z_lt_dec t deadline := {
  | left Hlt with flock_try t := {
      | FlockAcquired => (Returns true, t);
      | FlockBlocking => lock_wait flock_try deadline (t + lock_poll_interval_ms);
      | FlockRaises ty msg => (Raises ty msg, t) };
  | right _ => (Returns false, t) }.
Proof. unfold lock_poll_interval_ms. lia. Qed.

(** The environment one [extract_text] call meets. *)
Inductive chat_result : Type :=
| ChatChunks (chunks : list string)      (* the streamed [message.content]s *)
| ChatRaises (type_name msg : string).   (* an exception out of the stream *)

(** [lock_fd.close()] on the lock file, to which nothing is written, is
    taken to succeed. *)
Record ollama_env : Type := mk_env {
  sentinel_exists : call_result bool;  (* Path("/etc/ollama_health/HEALTHY").exists() *)
  lock_file_opens : bool;              (* open(_OLLAMA_LOCK_PATH, 'w') succeeds *)
  flock_try : Z -> flock_outcome;      (* flock(LOCK_EX | LOCK_NB) tried at time t *)
  unlock_raises : option (string * string);  (* flock(lock_fd, LOCK_UN) in the finally *)
  image_check : call_result bool;      (* Path(image_path).exists() *)
  chat : chat_result;                  (* self._client.chat(..., stream=True) *)
  start_ms : Z                         (* start_time *)
}.

Definition metadata (o : ollama_ocr) (elapsed : Z) : pyval :=
  PyDict [("backend", PyStr "ollama"); ("model", PyStr (model o));
          ("processing_time_seconds", PyInt elapsed)].

Definition is_timeout_exc (type_name err_str : string) : bool :=
  str_contains "ReadTimeout" type_name
  || str_contains "ConnectTimeout" type_name
  || str_contains "TimeoutException" type_name
  || str_contains "timeout" (str_lower err_str).

Definition is_connection_exc (type_name err_str : string) : bool :=
  str_contains "ConnectError" type_name
  || str_contains "RemoteProtocolError" type_name
  || str_contains "Cannot connect" err_str.

(** The [except Exception as e] branch of [_do_extract]. *)
Definition extract_error_dict (o : ollama_ocr) (type_name err_str : string)
    (elapsed : Z) : pydict :=
  if is_timeout_exc type_name err_str then
    [("success", PyBool false);
     ("error", PyStr ("Ollama request timed out after " ++ z_to_string (timeout o)
                      ++ "s. Please retry."));
     ("error_type", PyStr "timeout"); ("metadata", metadata o elapsed)]
  else if is_connection_exc type_name err_str then
    [("success", PyBool false);
     ("error", PyStr ("Cannot connect to Ollama at " ++ host o ++ ": " ++ err_str));
     ("error_type", PyStr "connection"); ("metadata", metadata o elapsed)]
  else
    [("success", PyBool false);
     ("error", PyStr ("Ollama extraction error: " ++ err_str));
     ("error_type", PyStr "error"); ("metadata", metadata o elapsed)].

(** [_do_extract]: every exception of the body is caught. *)
Definition do_extract (o : ollama_ocr) (env : ollama_env) (img : string) (t : Z) : pydict :=
  match image_check env with
  | Raises ty msg => extract_error_dict o ty msg (t - start_ms env)
  | Returns false => [("success", PyBool false); ("error", PyStr ("Image not found: " ++ img))]
  | Returns true =>
      match chat env with
      | ChatChunks chunks =>
          [("success", PyBool true); ("raw_text", PyStr (str_strip (str_concat chunks)));
           ("metadata", PyDict [("backend", PyStr "ollama"); ("model", PyStr (model o));
                                ("processing_time_seconds", PyInt (t - start_ms env));
                                ("confidence", PyStr "0.85")])]
      | ChatRaises ty msg => extract_error_dict o ty msg (t - start_ms env)
      end
  end.

Definition sentinel_error : string :=
  "Ollama model not ready (sentinel /etc/ollama_health/HEALTHY absent -- cron pre-warm pending)".

(** State of the lock file descriptor of one call. *)
Record gate_state : Type := mk_gate {
  fd_open : bool;      (* lock_fd is open *)
  lock_held : bool     (* this call holds the exclusive flock *)
}.

Definition gate_closed : gate_state := {| fd_open := false; lock_held := false |}.

(** The failure [extract_text] returns when [_ensure_available] raises a
    [RuntimeError] with message [e]. *)
Definition sentinel_failure (o : ollama_ocr) (e : string) : pydict :=
  [("success", PyBool false); ("error", PyStr e); ("metadata", metadata o 0)].

(** [extract_text]: the outcome and the state of the lock at exit.
    [_ensure_available] raises [RuntimeError] when the sentinel is absent;
    [except RuntimeError] catches only that class, so an exception out of
    [sentinel.exists()] of another class propagates. *)
Definition extract_text (o : ollama_ocr) (env : ollama_env) (img : string)
  : call_result pydict * gate_state :=
  match sentinel_exists env with
  | Raises ty msg =>
      if is_runtime_error ty then (Returns (sentinel_failure o msg), gate_closed)
      else (Raises ty msg, gate_closed)
  | Returns false => (Returns (sentinel_failure o sentinel_error), gate_closed)
  | Returns true =>
      if negb (lock_file_opens env) then
        (Raises "OSError" "open(_OLLAMA_LOCK_PATH, 'w') failed", gate_closed)
      else
        let deadline := start_ms env + lock_wait_seconds * 1000 in
        match lock_wait (flock_try env) deadline (start_ms env) with
        | (Raises ty msg, _) =>
            (* the exception leaves the loop; lock_fd is never closed *)
            (Raises ty msg, {| fd_open := true; lock_held := false |})
        | (Returns false, t) =>
            (* lock_fd.close() and the busy result *)
            (Returns [("success", PyBool false);
                      ("error", PyStr "Ollama is busy. Please retry shortly.");
                      ("error_type", PyStr "busy");
                      ("metadata", metadata o (t - start_ms env))], gate_closed)
        | (Returns true, t) =>
            (* try: return self._do_extract(...)
               finally: flock(LOCK_UN); lock_fd.close() -- an exception of
               the unlock replaces the return value and skips the close *)
            let d := do_extract o env img t in
            match unlock_raises env with
            | Some (ty, msg) => (Raises ty msg, {| fd_open := true; lock_held := true |})
            | None => (Returns d, gate_closed)
            end
        end
  end.

(** ** [LabelValidator.validate_label] *)

(** [d.get(k, default)] *)
Definition dict_get_default (d : pydict) (k : string) (dflt : pyval) : pyval :=
  match dict_get d k with Some v => v | None => dflt end.

(** Step 1 is the OCR call; steps 2-5 (field extraction, structural and
    accuracy validation, overall status) run on the OCR text only when the
    OCR succeeded; their outcome is the parameter [pipeline]. *)
Definition validate_label (ocr_result : call_result pydict)
    (pipeline : string -> call_result pydict) : call_result pydict :=
  match ocr_result with
  | Raises ty msg => Raises ty msg
  | Returns r =>
      if negb (py_truthy (dict_get_default r "success" (PyBool false))) then
        Returns [("status", PyStr "ERROR");
                 ("error", dict_get_default r "error" (PyStr "OCR extraction failed"));
                 ("processing_time_seconds", PyInt 0)]
      else
        match dict_get r "raw_text" with
        | Some (PyStr raw) => pipeline raw
        | Some _ => Raises "TypeError" "raw_text"
        | None => Raises "KeyError" "raw_text"
        end
  end.

(** ** [worker.py] *)

(** [process_job]: [validate_label] on the job's image, then
    [result["image_path"] = Path(image_path).name]. *)
Definition process_job (job : job_row) (validate : string -> call_result pydict)
  : call_result pydict :=
  match validate (image_path job) with
  | Returns res => Returns (dict_set res "image_path" (PyStr (path_name (image_path job))))
  | Raises ty msg => Raises ty msg
  end.

(** [any(kw in err.lower() for kw in (...))]: discard the validator. *)
Definition looks_like_connection_error (err : string) : bool :=
  existsb (fun kw => str_contains kw (str_lower err))
    ["timeout"; "connect"; "connection"; "read error"; "eof"].

(** One pass of the [while True] loop of [run_worker].  [validator] says
    whether a [LabelValidator] exists; [init] is the outcome of constructing
    one when it does not; [validate] is [validator.validate_label] on an
    image path.  Returns whether a validator exists afterwards and the
    table. *)
Definition worker_iteration (validator : bool) (init : call_result unit)
    (validate : string -> call_result pydict) (now : Z) (db : table)
  : bool * table :=
  match dequeue now db with
  | (None, db1) => (validator, db1)            (* time.sleep(POLL_INTERVAL) *)
  | (Some job, db1) =>
      match (if validator then Returns tt else init) with
      | Raises _ msg =>
          (false, fail (id job) ("Failed to initialise LabelValidator: " ++ msg) now db1)
      | Returns _ =>
          match process_job job validate with
          | Returns res => (true, complete (id job) res now db1)
          | Raises _ err =>
              (negb (looks_like_connection_error err), fail (id job) err now db1)
          end
      end
  end.

(** ** JSON values of the job files *)

(** What [json.dump] writes and [json.load] reads back: unlike [pyval],
    it has lists.  Numbers are integers here. *)
Inductive jval : Type :=
| JNone
| JBool (b : bool)
| JInt (z : Z)
| JStr (s : string)
| JList (l : list jval)
| JObj (d : list (string * jval)).

Definition jdict := list (string * jval).

Definition jdict_get (d : jdict) (k : string) : option jval :=
  match find (fun kv => String.eqb (fst kv) k) d with
  | Some (_, v) => Some v
  | None => None
  end.

Definition jdict_set (d : jdict) (k : string) (v : jval) : jdict :=
  if existsb (fun kv => String.eqb (fst kv) k) d
  then map (fun kv => if String.eqb (fst kv) k then (k, v) else kv) d
  else (d ++ [(k, v)])%list.

(** ** [JobManager]: one JSON file per batch job *)

(** [BatchJob]; datetimes are seconds. *)
Record batch_record : Type := mk_batch_record {
  br_job_id : string;
  br_status : job_status;
  br_created_at : Z;
  br_updated_at : Z;
  br_total_images : Z;
  br_processed_images : Z;
  br_results : list jdict;
  br_completed_at : option Z;
  br_summary : option jdict;
  br_error : option string
}.

(** [jobs_dir]: the file [<job_id>.json] of each job.  [None] is a file
    that [_read_job_file] or [BatchJob.from_dict] fails on. *)
Definition jm_store := list (string * option batch_record).

(** [job_path.exists()] and, when it does, the outcome of reading it. *)
Definition store_find (j : string) (st : jm_store) : option (option batch_record) :=
  match find (fun e => String.eqb (fst e) j) st with
  | Some (_, c) => Some c
  | None => None
  end.

(** [_write_job_file]: write a temp file, then rename it over the job file. *)
Definition store_write (j : string) (b : batch_record) (st : jm_store) : jm_store :=
  if existsb (fun e => String.eqb (fst e) j) st
  then map (fun e => if String.eqb (fst e) j then (j, Some b) else e) st
  else (st ++ [(j, Some b)])%list.

(** [job_path.unlink()] *)
Definition store_remove (j : string) (st : jm_store) : jm_store :=
  filter (fun e => negb (String.eqb (fst e) j)) st.

(** [create_job]: [job_id] is the generated UUID, [now] is [utcnow()]. *)
Definition create_job (job_id : string) (total_images : Z) (now : Z) (st : jm_store)
  : string * jm_store :=
  (job_id, store_write job_id
     {| br_job_id := job_id; br_status := Pending; br_created_at := now;
        br_updated_at := now; br_total_images := total_images;
        br_processed_images := 0; br_results := []; br_completed_at := None;
        br_summary := None; br_error := None |} st).

(** [get_job]: [None] when the file is missing or cannot be read. *)
Definition get_job (j : string) (st : jm_store) : option batch_record :=
  match store_find j st with
  | Some (Some b) => Some b
  | _ => None
  end.

Definition job_status_is_terminal (s : job_status) : bool :=
  match s with
  | Completed | Failed | Cancelled => true
  | Pending | Processing => false
  end.

(** The fields [update_job] sets on the job it read. *)
Definition update_record (status : option job_status) (processed_images : option Z)
    (summary : option jdict) (error : option string) (now : Z) (b : batch_record)
  : batch_record :=
  let st := match status with Some s => s | None => br_status b end in
  let ca := match status with
            | Some s => if job_status_is_terminal s then Some now else br_completed_at b
            | None => br_completed_at b
            end in
  {| br_job_id := br_job_id b; br_status := st; br_created_at := br_created_at b;
     br_updated_at := now; br_total_images := br_total_images b;
     br_processed_images := match processed_images with Some n => n | None => br_processed_images b end;
     br_results := br_results b; br_completed_at := ca;
     br_summary := match summary with Some s => Some s | None => br_summary b end;
     br_error := match error with Some e => Some e | None => br_error b end |}.

(** The fields [append_result] sets on the job it read. *)
Definition append_record (result : jdict) (now : Z) (b : batch_record) : batch_record :=
  let rs := (br_results b ++ [result])%list in
  {| br_job_id := br_job_id b; br_status := br_status b; br_created_at := br_created_at b;
     br_updated_at := now; br_total_images := br_total_images b;
     br_processed_images := Z.of_nat (length rs); br_results := rs;
     br_completed_at := br_completed_at b; br_summary := br_summary b;
     br_error := br_error b |}.

(** The read-modify-write of [update_job] and [append_result]: [False]
    when the file is missing or unreadable (the exception is caught). *)
Definition read_modify_write (f : batch_record -> batch_record) (j : string) (st : jm_store)
  : bool * jm_store :=
  match store_find j st with
  | None => (false, st)
  | Some None => (false, st)
  | Some (Some b) => (true, store_write j (f b) st)
  end.

Definition update_job (j : string) (status : option job_status)
    (processed_images : option Z) (summary : option jdict) (error : option string)
    (now : Z) (st : jm_store) : bool * jm_store :=
  read_modify_write (update_record status processed_images summary error now) j st.

Definition append_result (j : string) (result : jdict) (now : Z) (st : jm_store)
  : bool * jm_store :=
  read_modify_write (append_record result now) j st.

(** [delete_job]: [unlink] does not read the file. *)
Definition delete_job (j : string) (st : jm_store) : bool * jm_store :=
  match store_find j st with
  | None => (false, st)
  | Some _ => (true, store_remove j st)
  end.

(** Two processes running [read_modify_write] on one job file: the read
    (under [LOCK_SH], released at once) and the write (temp file, then
    [rename]) are separate steps. *)
Inductive rmw_thread : Type :=
| RmwStart
| RmwRead (c : option (option batch_record))
| RmwReturned (ok : bool).

Definition rmw_step (f : batch_record -> batch_record) (j : string)
    (th : rmw_thread) (st : jm_store) : rmw_thread * jm_store :=
  match th with
  | RmwStart => (RmwRead (store_find j st), st)
  | RmwRead (Some (Some b)) => (RmwReturned true, store_write j (f b) st)
  | RmwRead _ => (RmwReturned false, st)
  | RmwReturned _ => (th, st)
  end.

(** [false] steps the first process, [true] the second. *)
Fixpoint run_rmw_schedule (f1 f2 : batch_record -> batch_record) (j : string)
    (sched : list bool) (th1 th2 : rmw_thread) (st : jm_store)
  : rmw_thread * rmw_thread * jm_store :=
  match sched with
  | [] => (th1, th2, st)
  | false :: rest =>
      let '(th1', st') := rmw_step f1 j th1 st in run_rmw_schedule f1 f2 j rest th1' th2 st'
  | true :: rest =>
      let '(th2', st') := rmw_step f2 j th2 st in run_rmw_schedule f1 f2 j rest th1 th2' st'
  end.

(** [DELETE /verify/batch/{job_id}]: [get_job] (404 when it gives [None]),
    [update_job(..., CANCELLED)] when the job is pending or processing,
    then [delete_job] (500 when it gives [False]). *)
Definition delete_batch_job (j : string) (now : Z) (st : jm_store)
  : call_result string * jm_store :=
  match get_job j st with
  | None => (Raises "HTTPException" ("404: Job " ++ j ++ " not found"), st)
  | Some b =>
      let st1 := match br_status b with
                 | Pending | Processing => snd (update_job j (Some Cancelled) None None None now st)
                 | _ => st
                 end in
      let '(ok, st2) := delete_job j st1 in
      if ok then (Returns ("Job " ++ j ++ " deleted successfully"), st2)
      else (Raises "HTTPException" ("500: Failed to delete job " ++ j), st2)
  end.

(** ** [process_batch_job] (api.py) *)

(** The result appended when processing one image raises. *)
Definition batch_error_result (name msg : string) : jdict :=
  [("status", JStr "ERROR"); ("validation_level", JStr "STRUCTURAL_ONLY");
   ("extracted_fields", JObj []);
   ("validation_results", JObj [("structural", JList []); ("accuracy", JList [])]);
   ("violations", JList []); ("warnings", JList []);
   ("processing_time_seconds", JInt 0); ("image_path", JStr name); ("error", JStr msg)].

Definition jval_type_name (v : jval) : string :=
  match v with
  | JNone => "NoneType" | JBool _ => "bool" | JInt _ => "int" | JStr _ => "str"
  | JList _ => "list" | JObj _ => "dict"
  end.

(** [total_time += result['processing_time_seconds']]: a number adds, a
    missing key raises [KeyError], any other value [TypeError]. *)
Definition add_processing_time (total : Z) (res : jdict) : call_result Z :=
  match jdict_get res "processing_time_seconds" with
  | Some (JInt z) => Returns (total + z)
  | Some (JBool b) => Returns (total + if b then 1 else 0)
  | Some v => Raises "TypeError"
      ("unsupported operand type(s) for +=: 'float' and '" ++ jval_type_name v ++ "'")
  | None => Raises "KeyError" "'processing_time_seconds'"
  end.

(** The [for] loop over the images: [validate p] is
    [validator.validate_label(str(image_path), ground_truth_data)] with the
    ground truth looked up for [p].  After [append_result] and
    [total_time += ...], the f-string of [logger.debug] reads
    [result['status']], which raises [KeyError] when the key is missing;
    the [except] branch then appends an error result as well.  Returns
    [total_time] and the store. *)
Fixpoint batch_images (validate : string -> call_result jdict) (j : string)
    (images : list string) (now total : Z) (st : jm_store) : Z * jm_store :=
  match images with
  | [] => (total, st)
  | p :: rest =>
      let '(total', st') :=
        match validate p with
        | Returns res =>
            let res' := jdict_set res "image_path" (JStr (path_name p)) in
            let st1 := snd (append_result j res' now st) in
            match add_processing_time total res' with
            | Returns t =>
                match jdict_get res' "status" with
                | Some _ => (t, st1)
                | None =>
                    (t, snd (append_result j (batch_error_result (path_name p) "'status'") now st1))
                end
            | Raises _ msg =>
                (total, snd (append_result j (batch_error_result (path_name p) msg) now st1))
            end
        | Raises _ msg =>
            (total, snd (append_result j (batch_error_result (path_name p) msg) now st))
        end in
      batch_images validate j rest now total' st'
  end.

Definition count_status (s : string) (results : list jdict) : nat :=
  length (filter (fun r => match jdict_get r "status" with
                           | Some (JStr s') => String.eqb s' s
                           | _ => false
                           end) results).

Definition batch_summary (results : list jdict) (total_time : Z) : jdict :=
  [("total", JInt (Z.of_nat (length results)));
   ("compliant", JInt (Z.of_nat (count_status "COMPLIANT" results)));
   ("non_compliant", JInt (Z.of_nat (count_status "NON_COMPLIANT" results)));
   ("errors", JInt (Z.of_nat (count_status "ERROR" results)));
   ("total_processing_time_seconds", JInt total_time)].

(** [process_batch_job]: [init] is the outcome of [LabelValidator(...)];
    every timestamp is [now]. *)
Definition process_batch_job (init : call_result unit) (validate : string -> call_result jdict)
    (j : string) (images : list string) (now : Z) (st : jm_store) : jm_store :=
  let st1 := snd (update_job j (Some Processing) None None None now st) in
  match init with
  | Raises ty msg =>
      if is_runtime_error ty
      then snd (update_job j (Some Failed) None None
                  (Some ("Ollama backend unavailable: " ++ msg)) now st1)
      else (* the outer [except Exception as e] *)
           snd (update_job j (Some Failed) None None (Some msg) now st1)
  | Returns _ =>
      let '(total, st2) := batch_images validate j images now 0 st1 in
      match get_job j st2 with
      | None => st2
      | Some b =>
          snd (update_job j (Some Completed) None (Some (batch_summary (br_results b) total))
                 None now st2)
      end
  end.

(** ** [LabelValidator.validate_label], steps 2 to 5 *)

Fixpoint jval_of_pyval (v : pyval) : jval :=
  match v with
  | PyNone => JNone
  | PyBool b => JBool b
  | PyInt z => JInt z
  | PyStr s => JStr s
  | PyDict d => JObj (map (fun kv => (fst kv, jval_of_pyval (snd kv))) d)
  end.

(** [ValidationResult] (field_validators.py); a [None] field is [PyNone]. *)
Record validation_result : Type := mk_vr {
  vr_field_name : string;
  vr_is_valid : bool;
  vr_expected : pyval;
  vr_actual : pyval;
  vr_error_message : pyval;
  vr_similarity_score : pyval
}.

Definition GOVERNMENT_WARNING_TEXT : string :=
  "GOVERNMENT WARNING: (1) According to the Surgeon General, women should not drink alcoholic beverages during pregnancy because of the risk of birth defects. (2) Consumption of alcoholic beverages impairs your ability to drive a car or operate machinery, and may cause health problems.".

(** [d.get(k)] *)
Definition get_or_none (d : pydict) (k : string) : pyval := dict_get_default d k PyNone.

Definition is_none (v : pyval) : bool := match v with PyNone => true | _ => false end.

Definition vr_present (f : string) (actual : pyval) : validation_result :=
  {| vr_field_name := f; vr_is_valid := true; vr_expected := PyNone; vr_actual := actual;
     vr_error_message := PyNone; vr_similarity_score := PyNone |}.

Definition vr_missing (f msg : string) : validation_result :=
  {| vr_field_name := f; vr_is_valid := false; vr_expected := PyNone; vr_actual := PyNone;
     vr_error_message := PyStr msg; vr_similarity_score := PyNone |}.

(** [extracted_fields.get('government_warning', {})], then used with
    [.get]: a value that is not a dict raises [AttributeError]. *)
Definition government_warning_of (ef : pydict) : call_result pydict :=
  match dict_get ef "government_warning" with
  | None => Returns []
  | Some (PyDict w) => Returns w
  | Some _ => Raises "AttributeError" "object has no attribute 'get'"
  end.

(** A brand name, net contents or bottler check: [if not extracted_fields.get(key)]. *)
Definition presence_check (ef : pydict) (key f msg : string) : validation_result :=
  if py_truthy (get_or_none ef key) then vr_present f (get_or_none ef key)
  else vr_missing f msg.

Section LabelSteps.

(** [str(x)], also [f"{x}"], on the values the extractor produces. *)
Variable py_str : pyval -> string.
(** [round(x, 3)] *)
Variable round3 : pyval -> pyval.
(** [LabelExtractor.extract_fields] *)
Variable extract_fields : string -> call_result pydict.
(** [FieldValidator.validate_all_fields] *)
Variable validate_all_fields : pydict -> pydict -> call_result (list validation_result).

(** [_validate_structural] *)
Definition validate_structural (ef : pydict) : call_result (list validation_result) :=
  let brand := presence_check ef "brand_name" "brand_name" "Brand name not found on label" in
  let abv := if is_none (get_or_none ef "alcohol_content_numeric")
             then vr_missing "abv" "Alcohol content not found on label"
             else vr_present "abv" (PyStr (py_str (get_or_none ef "alcohol_content_numeric") ++ "%")) in
  let net := presence_check ef "net_contents" "net_contents" "Net contents not found on label" in
  let bottler := presence_check ef "bottler_info" "bottler" "Bottler information not found on label" in
  match government_warning_of ef with
  | Raises ty msg => Raises ty msg
  | Returns w =>
      Returns ([brand; abv; net; bottler] ++
        if negb (py_truthy (get_or_none w "present")) then
          [{| vr_field_name := "government_warning"; vr_is_valid := false;
              vr_expected := PyStr "Government warning required"; vr_actual := PyNone;
              vr_error_message := PyStr "Government warning not found on label";
              vr_similarity_score := PyNone |}]
        else
          [if negb (py_truthy (get_or_none w "header_all_caps")) then
             {| vr_field_name := "government_warning_header"; vr_is_valid := false;
                vr_expected := PyStr "GOVERNMENT WARNING:";
                vr_actual := match dict_get w "header_all_caps" with
                             | Some (PyBool false) => PyStr "Government Warning:"
                             | _ => PyNone
                             end;
                vr_error_message := PyStr "Warning header must be all caps: 'GOVERNMENT WARNING:'";
                vr_similarity_score := PyNone |}
           else
             {| vr_field_name := "government_warning_header"; vr_is_valid := true;
                vr_expected := PyStr "GOVERNMENT WARNING:";
                vr_actual := PyStr "GOVERNMENT WARNING:";
                vr_error_message := PyNone; vr_similarity_score := PyNone |};
           {| vr_field_name := "government_warning_text";
              vr_is_valid := py_truthy (get_or_none w "text_matches");
              vr_expected := PyStr GOVERNMENT_WARNING_TEXT;
              vr_actual := dict_get_default w "text" (PyStr "");
              vr_error_message :=
                if py_truthy (get_or_none w "text_matches") then PyNone
                else PyStr "Warning text does not match required text (27 CFR § 16.21)";
              vr_similarity_score := PyNone |}])%list
  end.

(** [_validate_accuracy] *)
Definition validate_accuracy (ef : pydict) (gt : pydict) : call_result (list validation_result) :=
  validate_all_fields
    [("brand_name", get_or_none ef "brand_name");
     ("abv", get_or_none ef "alcohol_content_numeric");
     ("net_contents", get_or_none ef "net_contents");
     ("bottler", get_or_none ef "bottler_info");
     ("product_type", get_or_none ef "class_type")] gt.

(** [_collect_violations] *)
Definition collect_violations (structural accuracy : list validation_result) : list jdict :=
  (map (fun r => [("field", JStr (vr_field_name r)); ("type", JStr "structural");
                  ("message", jval_of_pyval (vr_error_message r))])
       (filter (fun r => negb (vr_is_valid r)) structural) ++
   map (fun r => [("field", JStr (vr_field_name r)); ("type", JStr "accuracy");
                  ("message", jval_of_pyval (vr_error_message r));
                  ("expected", JStr (py_str (vr_expected r)));
                  ("actual", JStr (py_str (vr_actual r)))])
       (filter (fun r => negb (vr_is_valid r)) accuracy))%list.

End LabelSteps.

Definition no_ground_truth_warning : string :=
  "No ground truth provided - only structural validation performed. Provide ground truth data to enable full accuracy validation.".

Definition ocr_quality_warning (missing_count : Z) : string :=
  "OCR extracted " ++ z_to_string missing_count
  ++ " missing fields. Consider using --ocr-backend=ollama for better accuracy (slower).".

(** The [missing_count] of [_collect_warnings]. *)
Definition missing_count (ef : pydict) : Z :=
  (if py_truthy (get_or_none ef "brand_name") then 0 else 1)
  + (if is_none (get_or_none ef "alcohol_content_numeric") then 1 else 0)
  + (if py_truthy (get_or_none ef "net_contents") then 0 else 1)
  + (if py_truthy (get_or_none ef "bottler_info") then 0 else 1).

(** [_collect_warnings] *)
Definition collect_warnings (ef : pydict) (gt : option pydict) : list string :=
  ((if gt_truthy gt then [] else [no_ground_truth_warning]) ++
   (if (2 <=? missing_count ef)%Z then [ocr_quality_warning (missing_count ef)] else []))%list.

Definition is_structural_violation (v : jdict) : bool :=
  match jdict_get v "type" with
  | Some (JStr t) => String.eqb t "structural"
  | _ => false
  end.

(** [_determine_status] *)
Definition determine_status (violations : list jdict) (gt : option pydict) : string :=
  match violations with
  | [] => "COMPLIANT"
  | _ =>
      if negb (gt_truthy gt) then
        if existsb is_structural_violation violations then "NON_COMPLIANT"
        else "PARTIAL_VALIDATION"
      else "NON_COMPLIANT"
  end.

(** [_format_extracted_fields] *)
Definition format_extracted_fields (ef : pydict) : call_result pydict :=
  match government_warning_of ef with
  | Raises ty msg => Raises ty msg
  | Returns w =>
      Returns [("brand_name", get_or_none ef "brand_name");
               ("product_type", get_or_none ef "class_type");
               ("abv", get_or_none ef "alcohol_content");
               ("abv_numeric", get_or_none ef "alcohol_content_numeric");
               ("net_contents", get_or_none ef "net_contents");
               ("bottler", get_or_none ef "bottler_info");
               ("country", get_or_none ef "country_of_origin");
               ("government_warning",
                  PyDict [("present", dict_get_default w "present" (PyBool false));
                          ("header_correct", get_or_none w "header_all_caps");
                          ("text_correct", get_or_none w "text_matches")])]
  end.

(** [ValidationResult.to_dict] *)
Definition vr_to_dict (round3 : pyval -> pyval) (r : validation_result) : jdict :=
  ([("field", JStr (vr_field_name r)); ("valid", JBool (vr_is_valid r));
    ("expected", jval_of_pyval (vr_expected r)); ("actual", jval_of_pyval (vr_actual r))] ++
   (if py_truthy (vr_error_message r) then [("error", jval_of_pyval (vr_error_message r))] else []) ++
   (if is_none (vr_similarity_score r) then []
    else [("similarity_score", jval_of_pyval (round3 (vr_similarity_score r)))]))%list.

(** Steps 2 to 5 of [validate_label] on the OCR text [raw_text];
    [elapsed] is [round(time.time() - start_time, 3)]. *)
Definition validate_label_steps (py_str : pyval -> string) (round3 : pyval -> pyval)
    (extract_fields : string -> call_result pydict)
    (validate_all_fields : pydict -> pydict -> call_result (list validation_result))
    (elapsed : pyval) (gt : option pydict) (raw_text : string) : call_result jdict :=
  match extract_fields raw_text with
  | Raises ty msg => Raises ty msg
  | Returns ef =>
  match validate_structural py_str ef with
  | Raises ty msg => Raises ty msg
  | Returns structural =>
  match (match gt with
         | Some d => if gt_truthy gt then
                       match validate_accuracy validate_all_fields ef d with
                       | Returns acc => Returns ("FULL_VALIDATION", acc)
                       | Raises ty msg => Raises ty msg
                       end
                     else Returns ("STRUCTURAL_ONLY", [])
         | None => Returns ("STRUCTURAL_ONLY", [])
         end) with
  | Raises ty msg => Raises ty msg
  | Returns (level, accuracy) =>
      let violations := collect_violations py_str structural accuracy in
      let warnings := collect_warnings ef gt in
      let status := determine_status violations gt in
      match format_extracted_fields ef with
      | Raises ty msg => Raises ty msg
      | Returns fields =>
          Returns [("status", JStr status); ("validation_level", JStr level);
                   ("extracted_fields", jval_of_pyval (PyDict fields));
                   ("validation_results",
                      JObj [("structural", JList (map (fun r => JObj (vr_to_dict round3 r)) structural));
                            ("accuracy", JList (match accuracy with
                                                | [] => []
                                                | _ => map (fun r => JObj (vr_to_dict round3 r)) accuracy
                                                end))]);
                   ("violations", JList (map JObj violations));
                   ("warnings", JList (map JStr warnings));
                   ("processing_time_seconds", jval_of_pyval elapsed)]
      end
  end
  end
  end.

(** ** Runs of the worker loop and of the queue *)

(** [n] passes of the [while True] loop of [run_worker]; the validator
    (present or not) carries over from one pass to the next. *)
Fixpoint run_worker_iterations (n : nat) (validator : bool) (init : call_result unit)
    (validate : string -> call_result pydict) (now : Z) (db : table) : bool * table :=
  match n with
  | O => (validator, db)
  | S n' =>
      let '(v', db') := worker_iteration validator init validate now db in
      run_worker_iterations n' v' init validate now db'
  end.

(** The id of the job an operation's [dequeue] returns, if any. *)
Definition op_claimed (op : queue_op) (db : table) : list string :=
  match op with
  | OpDequeue now => match fst (dequeue now db) with Some j => [id j] | None => [] end
  | _ => []
  end.

(** The ids of the jobs [dequeue] returns along a sequence of operations. *)
Fixpoint claims_from (qm_max_attempts : nat) (ops : list queue_op) (db : table) : list string :=
  match ops with
  | [] => []
  | op :: rest =>
      (op_claimed op db ++ claims_from qm_max_attempts rest (apply_op qm_max_attempts op db))%list
  end.

Definition claims (qm_max_attempts : nat) (ops : list queue_op) : list string :=
  claims_from qm_max_attempts ops [].

Definition is_cleanup (op : queue_op) : bool :=
  match op with OpCleanup _ _ => true | _ => false end.

(** The job a [complete], [fail] or [cancel] call names. *)
Definition op_target (op : queue_op) : option string :=
  match op with
  | OpComplete j _ _ | OpFail j _ _ | OpCancel j _ => Some j
  | _ => None
  end.

(** [attempts] of the row [get(job_id)] returns, 0 when there is none. *)
Definition attempts_of (j : string) (db : table) : nat :=
  match lookup j db with Some r => attempts r | None => 0%nat end.

(** * Properties *)

Local Close Scope string_scope.
Local Open Scope list_scope.

(** ** Table primitives *)

Lemma update_where_map (p : job_row -> bool) (f : job_row -> job_row) (db : table) :
  snd (update_where p f db) = map (fun r => if p r then f r else r) db.
Proof.
  induction db as [|r rest IH]; simpl; [reflexivity|].
  destruct (update_where p f rest) as [n rest']; simpl in *; subst.
  destruct (p r); reflexivity.
Qed.

Lemma update_where_count (p : job_row -> bool) (f : job_row -> job_row) (db : table) :
  fst (update_where p f db) = length (filter p db).
Proof.
  induction db as [|r rest IH]; simpl; [reflexivity|].
  destruct (update_where p f rest) as [n rest']; simpl in *; subst.
  destruct (p r); reflexivity.
Qed.

Lemma delete_where_filter (p : job_row -> bool) (db : table) :
  snd (delete_where p db) = filter (fun r => negb (p r)) db.
Proof.
  induction db as [|r rest IH]; simpl; [reflexivity|].
  destruct (delete_where p rest) as [n rest']; simpl in *; subst.
  destruct (p r); reflexivity.
Qed.

Lemma delete_where_count (p : job_row -> bool) (db : table) :
  fst (delete_where p db) = length (filter p db).
Proof.
  induction db as [|r rest IH]; simpl; [reflexivity|].
  destruct (delete_where p rest) as [n rest']; simpl in *; subst.
  destruct (p r); reflexivity.
Qed.

Lemma has_id_true (j : string) (r : job_row) : has_id j r = true <-> id r = j.
Proof. unfold has_id. apply String.eqb_eq. Qed.

Lemma lookup_some (j : string) (db : table) (r : job_row) :
  lookup j db = Some r -> In r db /\ id r = j.
Proof.
  unfold lookup. intros H. apply find_some in H as [Hin Hid].
  split; [exact Hin | apply has_id_true; exact Hid].
Qed.

(** [find] through a [map] that keeps the key. *)
Lemma lookup_map (g : job_row -> job_row) (j : string) (db : table) :
  (forall r, id (g r) = id r) ->
  lookup j (map g db) = option_map g (lookup j db).
Proof.
  intros Hg. unfold lookup, has_id.
  induction db as [|r rest IH]; simpl; [reflexivity|].
  rewrite Hg. destruct (String.eqb (id r) j); [reflexivity | exact IH].
Qed.

Lemma lookup_app_left (j : string) (db extra : table) (r : job_row) :
  lookup j db = Some r -> lookup j (db ++ extra) = Some r.
Proof.
  unfold lookup. induction db as [|x rest IH]; simpl; [discriminate|].
  destruct (has_id j x); auto.
Qed.

Lemma nodup_ids_unique (db : table) (r r' : job_row) :
  NoDup (map id db) -> In r db -> In r' db -> id r = id r' -> r = r'.
Proof.
  induction db as [|x rest IH]; simpl; [tauto|].
  intros Hnd Hr Hr' Hid. inversion Hnd as [|? ? Hnotin Hnd']; subst.
  destruct Hr as [<-|Hr]; destruct Hr' as [<-|Hr']; auto.
  - exfalso. apply Hnotin. rewrite Hid. apply in_map. exact Hr'.
  - exfalso. apply Hnotin. rewrite <- Hid. apply in_map. exact Hr.
Qed.

(** Deleting rows keeps the primary key unique. *)
Lemma delete_keeps_ids_unique (keep : job_row -> bool) (db : table) :
  NoDup (map id db) -> NoDup (map id (filter keep db)).
Proof.
  intros Hnd. induction db as [|r rest IH]; [constructor|].
  simpl in Hnd. apply NoDup_cons_iff in Hnd as [Hout Hrest].
  simpl. case (keep r); [|exact (IH Hrest)].
  simpl. apply NoDup_cons_iff. split; [|exact (IH Hrest)].
  rewrite in_map_iff. intros [r' [Hid Hin]].
  rewrite filter_In in Hin. apply Hout, in_map_iff.
  exists r'. split; [exact Hid | exact (proj1 Hin)].
Qed.

Lemma map_ids_preserved (g : job_row -> job_row) (db : table) :
  (forall r, id (g r) = id r) -> map id (map g db) = map id db.
Proof.
  intros Hg. rewrite map_map. apply map_ext. exact Hg.
Qed.

Lemma oldest_pending_some (db : table) (r : job_row) :
  oldest_pending db = Some r -> In r db /\ is_pending r = true.
Proof.
  induction db as [|x rest IH]; simpl; [discriminate|].
  destruct (oldest_pending rest) as [o|] eqn:Ho.
  - destruct (is_pending x && (created_at x <=? created_at o)%Z) eqn:Hx; intros H;
      injection H as <-.
    + apply andb_true_iff in Hx as [Hx _]. auto.
    + destruct (IH eq_refl). auto.
  - destruct (is_pending x) eqn:Hx; intros H; [injection H as <-; auto | discriminate].
Qed.

Lemma is_pending_true (r : job_row) : is_pending r = true <-> status r = Pending.
Proof. unfold is_pending. apply job_status_eqb_eq. Qed.

(** ** The attempts invariant of the queue *)

Definition row_ok (r : job_row) : Prop :=
  (attempts r <= max_attempts r)%nat /\
  (status r = Pending -> (attempts r < max_attempts r)%nat).

Definition queue_inv (db : table) : Prop :=
  NoDup (map id db) /\ forall r, In r db -> row_ok r.

Lemma queue_inv_map (g : job_row -> job_row) (db : table) :
  (forall r, id (g r) = id r) -> NoDup (map id db) ->
  (forall r, In r db -> row_ok (g r)) -> queue_inv (map g db).
Proof.
  intros Hg Hnd Hok. split.
  - rewrite map_ids_preserved by exact Hg. exact Hnd.
  - intros r Hr. apply in_map_iff in Hr as [r0 [<- Hr0]]. auto.
Qed.

Lemma queue_inv_filter (p : job_row -> bool) (db : table) :
  queue_inv db -> queue_inv (filter p db).
Proof.
  intros [Hnd Hok]. split.
  - apply delete_keeps_ids_unique. exact Hnd.
  - intros r Hr. apply filter_In in Hr as [Hr _]. auto.
Qed.

Section AttemptsInvariant.

Variable qm_max_attempts : nat.
Hypothesis qm_max_attempts_pos : (1 <= qm_max_attempts)%nat.

Lemma apply_op_inv (op : queue_op) (db : table) :
  queue_inv db -> queue_inv (apply_op qm_max_attempts op db).
Proof.
  intros Hinv. pose proof Hinv as [Hnd Hok].
  destruct op as [j img gt now | now | j res now | j err now | j now | ret now]; simpl.
  - (* enqueue *)
    unfold enqueue. destruct (existsb (has_id j) db) eqn:Hex; [exact Hinv|].
    split.
    + rewrite map_app. simpl. apply NoDup_app; [exact Hnd | constructor; [tauto | constructor] |].
      intros x Hx Hx'. simpl in Hx'. destruct Hx' as [<-|[]].
      apply in_map_iff in Hx as [r [Hrid Hr]].
      assert (existsb (has_id j) db = true) as Htrue.
      { apply existsb_exists. exists r. split; [exact Hr|]. apply has_id_true. exact Hrid. }
      congruence.
    + intros r Hr. apply in_app_or in Hr as [Hr|[<-|[]]]; [auto|].
      unfold row_ok; simpl. split; [lia | intros _; lia].
  - (* dequeue *)
    unfold dequeue, dequeue_select. destruct (oldest_pending db) as [row|] eqn:Hsel; [|exact Hinv].
    apply oldest_pending_some in Hsel as [Hrow Hpend]. apply is_pending_true in Hpend.
    unfold dequeue_update; simpl. rewrite update_where_map.
    apply queue_inv_map; [intros r; destruct (has_id (id row) r); reflexivity | exact Hnd |].
    intros r Hr. destruct (has_id (id row) r) eqn:Hh.
    + apply has_id_true in Hh.
      assert (r = row) as -> by (apply (nodup_ids_unique db); auto).
      destruct (Hok row Hrow) as [_ Hlt]. specialize (Hlt Hpend).
      unfold row_ok, claim_row; simpl. split; [lia | discriminate].
    + auto.
  - (* complete *)
    unfold complete. rewrite update_where_map.
    apply queue_inv_map; [intros r; destruct (has_id j r); reflexivity | exact Hnd |].
    intros r Hr. destruct (has_id j r); [|auto].
    destruct (Hok r Hr) as [Hle _]. unfold row_ok, complete_row; simpl. split; [lia | discriminate].
  - (* fail *)
    unfold fail. destruct (lookup j db) as [row|] eqn:Hl; [|exact Hinv].
    apply lookup_some in Hl as [Hrow Hid].
    destruct (attempts row <? max_attempts row)%nat eqn:Hlt; rewrite update_where_map;
      (apply queue_inv_map; [intros r; destruct (has_id j r); reflexivity | exact Hnd |]);
      intros r Hr; destruct (has_id j r) eqn:Hh; try auto.
    + apply has_id_true in Hh.
      assert (r = row) as -> by (apply (nodup_ids_unique db); congruence).
      apply Nat.ltb_lt in Hlt. unfold row_ok, requeue_row; simpl. split; [lia | intros _; lia].
    + destruct (Hok r Hr) as [Hle _]. unfold row_ok, fail_row; simpl. split; [lia | discriminate].
  - (* cancel *)
    unfold cancel.
    destruct (update_where (fun r => has_id j r && is_pending r) (cancel_row now) db)
      as [n db'] eqn:Hu; simpl.
    assert (db' = snd (update_where (fun r => has_id j r && is_pending r) (cancel_row now) db))
      as -> by (rewrite Hu; reflexivity).
    rewrite update_where_map.
    apply queue_inv_map; [intros r; destruct (has_id j r && is_pending r); reflexivity | exact Hnd |].
    intros r Hr. destruct (has_id j r && is_pending r); [|auto].
    destruct (Hok r Hr) as [Hle _]. unfold row_ok, cancel_row; simpl. split; [lia | discriminate].
  - (* cleanup *)
    unfold cleanup_old_jobs. rewrite delete_where_filter. apply queue_inv_filter. exact Hinv.
Qed.

Lemma run_ops_from_inv (ops : list queue_op) (db : table) :
  queue_inv db -> queue_inv (fold_left (fun db op => apply_op qm_max_attempts op db) ops db).
Proof.
  revert db. induction ops as [|op ops IH]; simpl; intros db Hinv; [exact Hinv|].
  apply IH. apply apply_op_inv. exact Hinv.
Qed.

Lemma run_ops_inv (ops : list queue_op) : queue_inv (run_ops qm_max_attempts ops).
Proof.
  apply run_ops_from_inv. split; [constructor | intros r []].
Qed.

End AttemptsInvariant.

(** Rewrites [lookup j (map g db)] into [g] of the old row. *)
Ltac lookup_through_map Hl H' :=
  rewrite update_where_map, lookup_map in H';
  [ rewrite Hl in H'; simpl in H'; injection H' as <-
  | intros ?; match goal with |- id (if ?b then _ else _) = _ => destruct b; reflexivity end ].

Lemma op_makes_failed (m : nat) (op : queue_op) (db : table) (j : string) (r r' : job_row) :
  queue_inv db -> lookup j db = Some r ->
  lookup j (apply_op m op db) = Some r' ->
  status r' = Failed -> status r <> Failed ->
  is_fail_of j op = true /\ (max_attempts r <= attempts r)%nat.
Proof.
  intros [Hnd Hok] Hl H' Hf' Hnf.
  destruct op as [j0 img gt now | now | j0 res now | j0 err now | j0 now | ret now]; simpl in H'.
  - destruct (enqueue m j0 img gt now db) eqn:He.
    + unfold enqueue in He. destruct (existsb (has_id j0) db); [discriminate|].
      injection He as <-. rewrite (lookup_app_left _ _ _ _ Hl) in H'. congruence.
    + congruence.
  - unfold dequeue in H'. destruct (dequeue_select db) as [row|]; simpl in H'; [|congruence].
    lookup_through_map Hl H'. destruct (has_id (id row) r); simpl in Hf'; congruence.
  - unfold complete in H'. lookup_through_map Hl H'.
    destruct (has_id j0 r); simpl in Hf'; congruence.
  - unfold fail in H'. destruct (lookup j0 db) as [row|] eqn:Hl0; [|congruence].
    destruct (attempts row <? max_attempts row)%nat eqn:Hlt; lookup_through_map Hl H';
      destruct (has_id j0 r) eqn:Hh; simpl in Hf'; try congruence.
    apply lookup_some in Hl as [Hr Hid]. apply lookup_some in Hl0 as [Hrow Hid0].
    apply has_id_true in Hh.
    assert (row = r) as -> by (apply (nodup_ids_unique db); congruence).
    apply Nat.ltb_ge in Hlt. split; [simpl; apply String.eqb_eq; congruence | exact Hlt].
  - unfold cancel in H'.
    destruct (update_where (fun r => has_id j0 r && is_pending r) (cancel_row now) db)
      as [n db'] eqn:Hu; simpl in H'.
    assert (db' = snd (update_where (fun r => has_id j0 r && is_pending r) (cancel_row now) db))
      as -> by (rewrite Hu; reflexivity).
    lookup_through_map Hl H'. destruct (has_id j0 r && is_pending r); simpl in Hf'; congruence.
  - unfold cleanup_old_jobs in H'. rewrite delete_where_filter in H'.
    apply lookup_some in H' as [Hr' Hid']. apply filter_In in Hr' as [Hr' _].
    apply lookup_some in Hl as [Hr Hid].
    assert (r' = r) as -> by (apply (nodup_ids_unique db); congruence).
    congruence.
Qed.

Lemma fail_at_ceiling_makes_failed (m : nat) (op : queue_op) (db : table) (j : string)
    (r r' : job_row) :
  lookup j db = Some r ->
  lookup j (apply_op m op db) = Some r' ->
  is_fail_of j op = true -> (max_attempts r <= attempts r)%nat ->
  status r' = Failed.
Proof.
  intros Hl H' Hop Hge.
  destruct op as [j0 img gt now | now | j0 res now | j0 err now | j0 now | ret now];
    simpl in Hop; try discriminate.
  apply String.eqb_eq in Hop; subst j0. simpl in H'. unfold fail in H'. rewrite Hl in H'.
  assert ((attempts r <? max_attempts r)%nat = false) as Hlt by (apply Nat.ltb_ge; exact Hge).
  rewrite Hlt in H'. lookup_through_map Hl H'.
  apply lookup_some in Hl as [_ Hid]. assert (has_id j r = true) as Hh by (apply has_id_true; exact Hid).
  rewrite Hh. reflexivity.
Qed.

(** ** C2: attempts stay within max_attempts; failed exactly at the ceiling *)

(** C2: on any sequence of [enqueue]/[dequeue]/[complete]/[fail]/[cancel]/
    [cleanup_old_jobs] calls, made one after the other by a [QueueManager]
    with [max_attempts >= 1], every job has [attempts <= max_attempts]; and
    an operation moves a job into [failed] exactly when it is [fail] on that
    job while its [attempts] equals [max_attempts]. *)
Theorem attempts_bounded_failed_at_ceiling (m : nat) (Hm : (1 <= m)%nat)
    (ops : list queue_op) :
  let db := run_ops m ops in
  (forall r, In r db -> (attempts r <= max_attempts r)%nat) /\
  (forall op j r r',
     lookup j db = Some r -> lookup j (apply_op m op db) = Some r' ->
     (status r' = Failed /\ status r <> Failed <->
      status r <> Failed /\ is_fail_of j op = true /\ attempts r = max_attempts r)).
Proof.
  intros db. pose proof (run_ops_inv m Hm ops) as Hinv. fold db in Hinv.
  split.
  - intros r Hr. apply (proj2 Hinv r Hr).
  - intros op j r r' Hl H'. pose proof (proj2 Hinv r (proj1 (lookup_some _ _ _ Hl))) as [Hle _].
    split.
    + intros [Hf' Hnf].
      destruct (op_makes_failed m op db j r r' Hinv Hl H' Hf' Hnf) as [Hop Hge].
      repeat split; [exact Hnf | exact Hop | lia].
    + intros [Hnf [Hop Heq]]. split; [|exact Hnf].
      apply (fail_at_ceiling_makes_failed m op db j r r' Hl H' Hop). lia.
Qed.

Definition sample_ops : list queue_op :=
  [OpEnqueue "job-1" "/app/tmp/label.jpg" None 100;
   OpDequeue 101; OpFail "job-1" "timeout" 102;
   OpDequeue 103; OpFail "job-1" "timeout" 104;
   OpDequeue 105]%string.

Lemma attempts_bounded_failed_at_ceiling_witness :
  (1 <= 3)%nat /\
  lookup "job-1" (run_ops 3 sample_ops) = Some (claim_row 105 (requeue_row "timeout" 104
     (claim_row 103 (requeue_row "timeout" 102 (claim_row 101
       {| id := "job-1"; status := Pending; attempts := 0; max_attempts := 3;
          image_path := "/app/tmp/label.jpg"; ground_truth := None; result := None;
          error := None; created_at := 100; updated_at := 100;
          completed_at := None |})))))%string /\
  let db := run_ops 3 sample_ops in
  (forall r, In r db -> (attempts r <= max_attempts r)%nat) /\
  (forall op j r r',
     lookup j db = Some r -> lookup j (apply_op 3 op db) = Some r' ->
     (status r' = Failed /\ status r <> Failed <->
      status r <> Failed /\ is_fail_of j op = true /\ attempts r = max_attempts r)).
Proof.
  split; [lia|]. split; [vm_compute; reflexivity|].
  apply (attempts_bounded_failed_at_ceiling 3). lia.
Defined.

(** ** C1: two concurrent [dequeue] callers and one pending job *)

Definition one_pending_job : table :=
  run_ops 3 [OpEnqueue "job-1" "/app/tmp/label.jpg" None 100]%string.

(** Run one caller to the end before the other starts: the second caller
    finds no pending job. *)
Example dequeue_sequential_single_claim :
  match run_schedule 200 [false; false; true; true] DqStart DqStart one_pending_job with
  | (DqReturned (Some ja), DqReturned None, db) =>
      id ja = "job-1"%string /\
      option_map attempts (lookup "job-1" db) = Some 1%nat
  | _ => False
  end.
Proof. vm_compute. split; reflexivity. Qed.

(** C1: with exactly one pending job, the interleaving SELECT(A), SELECT(B),
    UPDATE(A), UPDATE(B) makes both callers return the same job id, and
    its [attempts] is incremented twice. *)
Theorem dequeue_concurrent_double_claim :
  queue_depth one_pending_job = 1%nat /\
  match run_schedule 200 [false; true; false; true] DqStart DqStart one_pending_job with
  | (DqReturned (Some ja), DqReturned (Some jb), db) =>
      id ja = "job-1"%string /\ id jb = "job-1"%string /\
      option_map attempts (lookup "job-1" db) = Some 2%nat
  | _ => False
  end.
Proof. vm_compute. repeat split; reflexivity. Qed.

(** ** C3: what the operations do to a job in a terminal status *)

Definition completed_job_ops : list queue_op :=
  [OpEnqueue "job-1" "/app/tmp/label.jpg" None 100; OpDequeue 101;
   OpComplete "job-1" [("status", PyStr "COMPLIANT")] 102]%string.

Definition cancelled_job_ops : list queue_op :=
  [OpEnqueue "job-2" "/app/tmp/label.jpg" None 100; OpCancel "job-2" 101]%string.

(** C3 counterexample: a completed job is put back to [pending] by a later
    [fail], and a cancelled job is made [completed] by a later [complete]. *)
Lemma terminal_status_overwritten :
  option_map status (lookup "job-1" (run_ops 3 completed_job_ops)) = Some Completed /\
  option_map status (lookup "job-1"
    (apply_op 3 (OpFail "job-1" "late failure" 103) (run_ops 3 completed_job_ops)))
    = Some Pending /\
  option_map status (lookup "job-2" (run_ops 3 cancelled_job_ops)) = Some Cancelled /\
  option_map status (lookup "job-2"
    (apply_op 3 (OpComplete "job-2" [] 102) (run_ops 3 cancelled_job_ops)))
    = Some Completed.
Proof. vm_compute. repeat split; reflexivity. Qed.

Lemma update_where_none (p : job_row -> bool) (f : job_row -> job_row) (db : table) :
  (forall r, In r db -> p r = false) -> update_where p f db = (0%nat, db).
Proof.
  induction db as [|x rest IH]; simpl; intros Hp; [reflexivity|].
  rewrite IH by auto. rewrite (Hp x (or_introl eq_refl)). reflexivity.
Qed.

(** C3 (as the code has it): for a job in a terminal status, [cancel]
    returns [false] and changes nothing, [dequeue] leaves the job as it is
    and [cleanup_old_jobs] leaves it as it is or deletes it; [complete] and
    [fail] apply no status guard: [complete] makes it [completed], [fail]
    makes it [pending] when [attempts < max_attempts] and [failed]
    otherwise. *)
Theorem terminal_job_under_ops (m : nat) (ops : list queue_op) (j : string) (r : job_row)
    (Hm : (1 <= m)%nat)
    (Hl : lookup j (run_ops m ops) = Some r) (Ht : is_terminal r = true) :
  let db := run_ops m ops in
  (forall now, cancel j now db = (false, db)) /\
  (forall now, lookup j (snd (dequeue now db)) = Some r) /\
  (forall ret now, lookup j (snd (cleanup_old_jobs ret now db)) = Some r \/
                   lookup j (snd (cleanup_old_jobs ret now db)) = None) /\
  (forall res now, lookup j (complete j res now db) = Some (complete_row res now r)) /\
  (forall err now, lookup j (fail j err now db) =
     Some (if (attempts r <? max_attempts r)%nat then requeue_row err now r
           else fail_row err now r)).
Proof.
  intros db. pose proof (run_ops_inv m Hm ops) as [Hnd Hok]. fold db in Hnd, Hok, Hl.
  pose proof (lookup_some _ _ _ Hl) as [Hr Hid].
  assert (Hnp : status r <> Pending)
    by (intros Hs; unfold is_terminal in Ht; rewrite Hs in Ht; discriminate).
  split; [|split; [|split; [|split]]].
  - intros now. unfold cancel. rewrite update_where_none; [reflexivity|].
    intros x Hx. destruct (has_id j x) eqn:Hh; [|reflexivity]. simpl.
    apply has_id_true in Hh.
    assert (x = r) as -> by (apply (nodup_ids_unique db); congruence).
    destruct (is_pending r) eqn:Hp; [|reflexivity]. apply is_pending_true in Hp. contradiction.
  - intros now. unfold dequeue, dequeue_select.
    destruct (oldest_pending db) as [row|] eqn:Hsel; [|exact Hl].
    apply oldest_pending_some in Hsel as [Hrow Hpend].
    unfold dequeue_update. simpl. rewrite update_where_map, lookup_map.
    + rewrite Hl. simpl. destruct (has_id (id row) r) eqn:Hh; [|reflexivity].
      apply has_id_true in Hh.
      assert (r = row) as -> by (apply (nodup_ids_unique db); auto).
      apply is_pending_true in Hpend. contradiction.
    + intros x. destruct (has_id (id row) x); reflexivity.
  - intros ret now. unfold cleanup_old_jobs. rewrite delete_where_filter.
    destruct (lookup j (filter _ db)) as [r'|] eqn:H'; [left|right; reflexivity].
    apply lookup_some in H' as [Hr' Hid']. apply filter_In in Hr' as [Hr' _].
    f_equal. apply (nodup_ids_unique db); congruence.
  - intros res now. unfold complete. rewrite update_where_map, lookup_map.
    + rewrite Hl. simpl. assert (has_id j r = true) as -> by (apply has_id_true; exact Hid).
      reflexivity.
    + intros x. destruct (has_id j x); reflexivity.
  - intros err now. unfold fail. rewrite Hl.
    assert (has_id j r = true) as Hh by (apply has_id_true; exact Hid).
    destruct (attempts r <? max_attempts r)%nat; rewrite update_where_map, lookup_map;
      try (rewrite Hl; simpl; rewrite Hh; reflexivity);
      intros x; destruct (has_id j x); reflexivity.
Qed.

Lemma terminal_job_under_ops_witness :
  (1 <= 3)%nat /\
  lookup "job-1" (run_ops 3 completed_job_ops)
    = Some (complete_row [("status", PyStr "COMPLIANT")] 102 (claim_row 101
       {| id := "job-1"; status := Pending; attempts := 0; max_attempts := 3;
          image_path := "/app/tmp/label.jpg"; ground_truth := None; result := None;
          error := None; created_at := 100; updated_at := 100;
          completed_at := None |}))%string /\
  is_terminal (complete_row [("status", PyStr "COMPLIANT")] 102 (claim_row 101
       {| id := "job-1"; status := Pending; attempts := 0; max_attempts := 3;
          image_path := "/app/tmp/label.jpg"; ground_truth := None; result := None;
          error := None; created_at := 100; updated_at := 100;
          completed_at := None |}))%string = true /\
  (forall now, cancel "job-1" now (run_ops 3 completed_job_ops)
               = (false, run_ops 3 completed_job_ops))%string.
Proof.
  split; [lia|]. split; [vm_compute; reflexivity|]. split; [reflexivity|].
  refine (proj1 (terminal_job_under_ops 3 completed_job_ops "job-1"%string _ _ _ _));
    [lia | vm_compute; reflexivity | reflexivity].
Defined.

(** ** C7: [cancel] *)

(** C7: on a job of the table, [cancel] returns [true] exactly when the
    job is [pending], and then sets it to [cancelled] (stamping
    [updated_at]); on a job in any other status it returns [false] and the
    table is left unchanged. *)
Theorem cancel_only_pending (m : nat) (ops : list queue_op) (j : string) (r : job_row)
    (now : Z) (Hm : (1 <= m)%nat) (Hl : lookup j (run_ops m ops) = Some r) :
  let db := run_ops m ops in
  (fst (cancel j now db) = true <-> status r = Pending) /\
  (status r = Pending -> lookup j (snd (cancel j now db)) = Some (cancel_row now r)) /\
  (status r <> Pending -> cancel j now db = (false, db)).
Proof.
  intros db. pose proof (run_ops_inv m Hm ops) as [Hnd Hok]. fold db in Hnd, Hok, Hl.
  pose proof (lookup_some _ _ _ Hl) as [Hr Hid].
  assert (Hh : has_id j r = true) by (apply has_id_true; exact Hid).
  assert (Hnone : status r <> Pending -> cancel j now db = (false, db)).
  { intros Hnp. unfold cancel. rewrite update_where_none; [reflexivity|].
    intros x Hx. destruct (has_id j x) eqn:Hhx; [|reflexivity]. simpl.
    apply has_id_true in Hhx.
    assert (x = r) as -> by (apply (nodup_ids_unique db); congruence).
    destruct (is_pending r) eqn:Hp; [|reflexivity]. apply is_pending_true in Hp. contradiction. }
  split; [|split; [|exact Hnone]].
  - split.
    + intros Hc. destruct (job_status_eqb (status r) Pending) eqn:Hs.
      * apply job_status_eqb_eq. exact Hs.
      * assert (status r <> Pending) as Hnp by (intros E; rewrite E in Hs; discriminate).
        rewrite (Hnone Hnp) in Hc. discriminate.
    + intros Hp. unfold cancel.
      pose proof (update_where_count (fun x => has_id j x && is_pending x) (cancel_row now) db)
        as Hcount.
      destruct (update_where _ _ db) as [n db'] eqn:Hu. simpl in Hcount |- *.
      assert (In r (filter (fun x => has_id j x && is_pending x) db)) as Hin.
      { apply filter_In. split; [exact Hr|]. rewrite Hh. simpl. apply is_pending_true. exact Hp. }
      destruct (filter _ db) as [|y ys]; [contradiction|]. simpl in Hcount. subst n. reflexivity.
  - intros Hp. unfold cancel.
    pose proof (update_where_map (fun x => has_id j x && is_pending x) (cancel_row now) db) as Hm'.
    destruct (update_where _ _ db) as [n db'] eqn:Hu. simpl in Hm' |- *. subst db'.
    rewrite lookup_map.
    + rewrite Hl. simpl. rewrite Hh. simpl.
      assert (is_pending r = true) as -> by (apply is_pending_true; exact Hp). reflexivity.
    + intros x. destruct (has_id j x && is_pending x); reflexivity.
Qed.

Lemma cancel_only_pending_witness :
  (1 <= 3)%nat /\
  lookup "job-2" (run_ops 3 [OpEnqueue "job-2" "/app/tmp/label.jpg" None 100]%string)
    = Some {| id := "job-2"; status := Pending; attempts := 0; max_attempts := 3;
              image_path := "/app/tmp/label.jpg"; ground_truth := None; result := None;
              error := None; created_at := 100; updated_at := 100;
              completed_at := None |}%string /\
  fst (cancel "job-2" 101 (run_ops 3 [OpEnqueue "job-2" "/app/tmp/label.jpg" None 100]))
    = true%string.
Proof.
  split; [lia|]. split; [vm_compute; reflexivity|].
  refine (proj2 (proj1 (cancel_only_pending 3
     [OpEnqueue "job-2" "/app/tmp/label.jpg" None 100]%string "job-2"%string _ 101 _ _)) _);
    [lia | vm_compute; reflexivity | reflexivity].
Defined.

(** ** C5: retention sweeps *)

(** Completed and failed rows carry [completed_at = updated_at]. *)
Definition stamp_ok (r : job_row) : Prop :=
  match status r with
  | Completed | Failed => completed_at r = Some (updated_at r)
  | _ => True
  end.

Lemma stamp_ok_map (g : job_row -> job_row) (db : table) :
  (forall r, In r db -> stamp_ok r -> stamp_ok (g r)) ->
  (forall r, In r db -> stamp_ok r) -> forall r, In r (map g db) -> stamp_ok r.
Proof.
  intros Hg Hdb r Hr. apply in_map_iff in Hr as [r0 [<- Hr0]]. auto.
Qed.

Lemma apply_op_stamp (m : nat) (op : queue_op) (db : table) :
  (forall r, In r db -> stamp_ok r) -> forall r, In r (apply_op m op db) -> stamp_ok r.
Proof.
  intros Hdb.
  destruct op as [j img gt now | now | j res now | j err now | j now | ret now]; simpl.
  - destruct (enqueue m j img gt now db) eqn:He; [|exact Hdb].
    unfold enqueue in He. destruct (existsb (has_id j) db); [discriminate|].
    injection He as <-. intros r Hr. apply in_app_or in Hr as [Hr|[<-|[]]]; [auto | exact I].
  - unfold dequeue. destruct (dequeue_select db) as [row|]; [|exact Hdb].
    simpl. rewrite update_where_map. apply stamp_ok_map; [|exact Hdb].
    intros r _ Hs. destruct (has_id (id row) r); [exact I | exact Hs].
  - unfold complete. rewrite update_where_map. apply stamp_ok_map; [|exact Hdb].
    intros r _ Hs. destruct (has_id j r); [reflexivity | exact Hs].
  - unfold fail. destruct (lookup j db); [|exact Hdb].
    destruct (_ <? _)%nat; rewrite update_where_map; apply stamp_ok_map; try exact Hdb;
      intros r _ Hs; destruct (has_id j r); solve [exact I | reflexivity | exact Hs].
  - unfold cancel.
    pose proof (update_where_map (fun x => has_id j x && is_pending x) (cancel_row now) db) as Hm'.
    destruct (update_where _ _ db) as [n db'] eqn:Hu. simpl in Hm' |- *. subst db'.
    apply stamp_ok_map; [|exact Hdb].
    intros r _ Hs. destruct (has_id j r && is_pending r); [exact I | exact Hs].
  - unfold cleanup_old_jobs. rewrite delete_where_filter.
    intros r Hr. apply filter_In in Hr as [Hr _]. auto.
Qed.

Lemma run_ops_stamp (m : nat) (ops : list queue_op) :
  forall r, In r (run_ops m ops) -> stamp_ok r.
Proof.
  unfold run_ops. assert (forall r : job_row, In r [] -> stamp_ok r) as H0 by (intros r []).
  revert H0. generalize (@nil job_row) as db.
  induction ops as [|op ops IH]; simpl; intros db Hdb; [exact Hdb|].
  apply IH. apply apply_op_stamp. exact Hdb.
Qed.

Lemma filter_length_split {A : Type} (p : A -> bool) (l : list A) :
  (length (filter p l) + length (filter (fun x => negb (p x)) l) = length l)%nat.
Proof.
  induction l as [|x rest IH]; simpl; [reflexivity|].
  destruct (p x); simpl; lia.
Qed.

Lemma jm_sweep_spec (cutoff : Z) (files : list job_file) :
  snd (jm_sweep cutoff files) =
    filter (fun f => match f with Some b => negb (batch_expired cutoff b) | None => true end) files /\
  fst (jm_sweep cutoff files) =
    length (filter (fun f => match f with Some b => batch_expired cutoff b | None => false end) files).
Proof.
  induction files as [|f rest [IH1 IH2]]; simpl; [split; reflexivity|].
  destruct (jm_sweep cutoff rest) as [n rest']; simpl in *; subst.
  destruct f as [b|]; simpl; [|split; reflexivity].
  destruct (batch_expired cutoff b); simpl; split; reflexivity.
Qed.

Definition cancelled_old : table :=
  run_ops 3 [OpEnqueue "job-2" "/app/tmp/label.jpg" None 100; OpCancel "job-2" 101]%string.

(** C5 counterexample: a cancelled job has no [completed_at] at all, yet
    [QueueManager.cleanup_old_jobs] deletes it once its [updated_at] is older
    than the window. *)
Lemma cleanup_deletes_without_completed_at :
  option_map completed_at (lookup "job-2" cancelled_old) = Some None /\
  option_map status (lookup "job-2" cancelled_old) = Some Cancelled /\
  cleanup_old_jobs 14400 20000 cancelled_old = (1%nat, []).
Proof. vm_compute. repeat split; reflexivity. Qed.

(** C5 (as the code has it): [QueueManager.cleanup_old_jobs] deletes a row
    exactly when it is terminal and its [updated_at] is older than
    [now - retention_seconds] (for completed and failed rows [updated_at] is
    their [completed_at]; cancelled rows are aged by [updated_at]); pending
    and processing rows are never deleted; the result is the number of rows
    deleted.  [JobManager.cleanup_old_jobs] deletes a readable job file
    exactly when the job is terminal and its [completed_at] is set and older
    than [now - retention_hours]; it returns the number deleted. *)
Theorem cleanup_deletes_expired_terminal (m : nat) (ops : list queue_op) (ret now : Z) :
  let db := run_ops m ops in
  let db' := snd (cleanup_old_jobs ret now db) in
  (forall r, In r db -> (In r db' <-> ~ (is_terminal r = true /\ updated_at r < now - ret))) /\
  (forall r, In r db' -> In r db) /\
  (forall r, In r db -> is_terminal r = false -> In r db') /\
  (forall r, In r db -> status r = Completed \/ status r = Failed ->
             completed_at r = Some (updated_at r)) /\
  fst (cleanup_old_jobs ret now db) = (length db - length db')%nat /\
  (forall (retention_hours now' : Z) (files : list job_file),
     let files' := snd (jm_cleanup_old_jobs retention_hours now' files) in
     (forall f, In f files ->
        (In f files' <->
         ~ exists b c, f = Some b /\ batch_is_terminal b = true /\
                       batch_completed_at b = Some c /\ c < now' - retention_hours * 3600)) /\
     fst (jm_cleanup_old_jobs retention_hours now' files) = (length files - length files')%nat).
Proof.
  intros db db'.
  assert (Hdb' : db' = filter (fun r => negb (is_terminal r && (updated_at r <? now - ret))) db)
    by (unfold db', cleanup_old_jobs; apply delete_where_filter).
  split; [|split; [|split; [|split; [|split]]]].
  - intros r Hr. rewrite Hdb', filter_In. split.
    + intros [_ Hk] [Ht Hu]. rewrite Ht in Hk. apply Z.ltb_lt in Hu. rewrite Hu in Hk. discriminate.
    + intros Hn. split; [exact Hr|].
      destruct (is_terminal r) eqn:Ht; [|reflexivity].
      destruct (updated_at r <? now - ret) eqn:Hu; [|reflexivity].
      exfalso. apply Hn. split; [reflexivity | apply Z.ltb_lt; exact Hu].
  - intros r Hr. rewrite Hdb' in Hr. apply filter_In in Hr. tauto.
  - intros r Hr Ht. rewrite Hdb', filter_In. rewrite Ht. split; [exact Hr | reflexivity].
  - intros r Hr Hs. pose proof (run_ops_stamp m ops r Hr) as Hst. unfold stamp_ok in Hst.
    destruct Hs as [Hs|Hs]; rewrite Hs in Hst; exact Hst.
  - unfold cleanup_old_jobs. cbv zeta. rewrite delete_where_count, Hdb'.
    pose proof (filter_length_split (fun r => is_terminal r && (updated_at r <? now - ret)) db).
    lia.
  - intros retention_hours now' files files'.
    destruct (jm_sweep_spec (now' - retention_hours * 3600) files) as [Hs Hc].
    assert (Hf : files' = filter (fun f => match f with
                   | Some b => negb (batch_expired (now' - retention_hours * 3600) b)
                   | None => true end) files) by exact Hs.
    split.
    + intros f Hf0. rewrite Hf, filter_In. split.
      * intros [_ Hk] [b [c [-> [Ht [Hc' Hlt]]]]]. unfold batch_expired in Hk.
        rewrite Ht, Hc' in Hk. apply Z.ltb_lt in Hlt. rewrite Hlt in Hk. discriminate.
      * intros Hn. split; [exact Hf0|]. destruct f as [b|]; [|reflexivity].
        unfold batch_expired. destruct (batch_is_terminal b) eqn:Ht; [|reflexivity].
        destruct (batch_completed_at b) as [c|] eqn:Hc'; [|reflexivity].
        destruct (c <? now' - retention_hours * 3600) eqn:Hlt; [|reflexivity].
        exfalso. apply Hn. exists b, c. repeat split; auto. apply Z.ltb_lt. exact Hlt.
    + unfold jm_cleanup_old_jobs. rewrite Hc, Hf.
      pose proof (filter_length_split (fun f : option batch_job => match f with
                   | Some b => batch_expired (now' - retention_hours * 3600) b
                   | None => false end) files) as Hsplit.
      assert (Heq : filter (fun f : option batch_job => match f with
                   | Some b => negb (batch_expired (now' - retention_hours * 3600) b)
                   | None => true end) files =
              filter (fun x : option batch_job => negb match x with
                   | Some b => batch_expired (now' - retention_hours * 3600) b
                   | None => false end) files)
        by (apply filter_ext; intros [b|]; reflexivity).
      cbv beta in Hsplit. rewrite <- Heq in Hsplit. unfold job_file in *. lia.
Qed.

(** ** C6: order of a requeued job *)

Lemma oldest_pending_none (db : table) (x : job_row) :
  oldest_pending db = None -> In x db -> is_pending x = false.
Proof.
  induction db as [|y rest IH]; simpl; intros Ho Hx; [contradiction|].
  destruct (oldest_pending rest) as [o|]; [destruct (_ && _); discriminate|].
  destruct (is_pending y) eqn:Hy; [discriminate|].
  destruct Hx as [<-|Hx]; [exact Hy | exact (IH eq_refl Hx)].
Qed.

Lemma oldest_pending_min (db : table) (o x : job_row) :
  oldest_pending db = Some o -> In x db -> is_pending x = true ->
  created_at o <= created_at x.
Proof.
  revert o. induction db as [|y rest IH]; simpl; intros o Ho Hx Hpx; [discriminate|].
  destruct (oldest_pending rest) as [o'|] eqn:Hrest.
  - specialize (IH o' eq_refl).
    destruct (is_pending y && (created_at y <=? created_at o')) eqn:Hy;
      injection Ho as <-.
    + apply andb_true_iff in Hy as [_ Hle]. apply Z.leb_le in Hle.
      destruct Hx as [<-|Hx]; [lia|]. specialize (IH Hx Hpx). lia.
    + destruct Hx as [<-|Hx]; [|auto].
      rewrite Hpx in Hy. simpl in Hy. apply Z.leb_gt in Hy. lia.
  - destruct (is_pending y) eqn:Hy; [|discriminate]. injection Ho as <-.
    destruct Hx as [<-|Hx]; [lia|].
    rewrite (oldest_pending_none rest x Hrest Hx) in Hpx. discriminate.
Qed.

Definition requeue_ops : list queue_op :=
  [OpEnqueue "job-A" "/app/tmp/a.jpg" None 100; OpDequeue 101;
   OpEnqueue "job-B" "/app/tmp/b.jpg" None 102; OpFail "job-A" "timeout" 103]%string.

(** C6 counterexample: job A (created at 100) is requeued by [fail] at 103,
    after job B arrived at 102.  Ordered by its new [updated_at], A would
    come after B; [dequeue] claims A first. *)
Lemma requeued_job_claimed_before_newer_arrival :
  let db := run_ops 3 requeue_ops in
  option_map status (lookup "job-A" db) = Some Pending /\
  option_map status (lookup "job-B" db) = Some Pending /\
  option_map updated_at (lookup "job-A" db) = Some 103 /\
  option_map updated_at (lookup "job-B" db) = Some 102 /\
  option_map id (fst (dequeue 104 db)) = Some "job-A"%string.
Proof. vm_compute. repeat split; reflexivity. Qed.

(** C6 (as the code has it): [fail] requeues a job with attempts left
    keeping its original [created_at]; [dequeue] orders pending jobs by
    [created_at], so when the requeued job was created before every other
    pending job it is the next one claimed, ahead of newer arrivals. *)
Theorem requeued_job_keeps_created_at_order (m : nat) (ops : list queue_op)
    (j err : string) (r : job_row) (now now' : Z) (Hm : (1 <= m)%nat)
    (Hl : lookup j (run_ops m ops) = Some r)
    (Hlt : (attempts r < max_attempts r)%nat)
    (Holder : forall x, In x (run_ops m ops) -> is_pending x = true -> id x <> j ->
              created_at r < created_at x) :
  let db1 := fail j err now (run_ops m ops) in
  lookup j db1 = Some (requeue_row err now r) /\
  created_at (requeue_row err now r) = created_at r /\
  status (requeue_row err now r) = Pending /\
  fst (dequeue now' db1) = Some (claimed_job (requeue_row err now r)).
Proof.
  intros db1. set (db := run_ops m ops) in *.
  pose proof (run_ops_inv m Hm ops) as [Hnd Hok]. fold db in Hnd, Hok.
  pose proof (lookup_some _ _ _ Hl) as [Hr Hid].
  assert (Hh : has_id j r = true) by (apply has_id_true; exact Hid).
  set (g := fun x => if has_id j x then requeue_row err now x else x).
  assert (Hdb1 : db1 = map g db).
  { unfold db1, fail. rewrite Hl.
    assert ((attempts r <? max_attempts r)%nat = true) as -> by (apply Nat.ltb_lt; exact Hlt).
    apply update_where_map. }
  assert (Hg : forall x, id (g x) = id x) by (intros x; unfold g; destruct (has_id j x); reflexivity).
  assert (Hlk : lookup j db1 = Some (requeue_row err now r)).
  { rewrite Hdb1, lookup_map by exact Hg. rewrite Hl. simpl. unfold g. rewrite Hh. reflexivity. }
  split; [exact Hlk | split; [reflexivity | split; [reflexivity|]]].
  unfold dequeue, dequeue_select.
  destruct (oldest_pending db1) as [o|] eqn:Ho.
  - pose proof (oldest_pending_some _ _ Ho) as [Hoin Hop].
    assert (Hrin : In (requeue_row err now r) db1)
      by (rewrite Hdb1; replace (requeue_row err now r) with (g r)
            by (unfold g; rewrite Hh; reflexivity); apply in_map; exact Hr).
    pose proof (oldest_pending_min _ _ _ Ho Hrin eq_refl) as Hmin. simpl in Hmin.
    rewrite Hdb1 in Hoin. apply in_map_iff in Hoin as [x [Hgx Hx]].
    unfold g in Hgx. destruct (has_id j x) eqn:Hhx.
    + apply has_id_true in Hhx.
      assert (x = r) as -> by (apply (nodup_ids_unique db); congruence).
      subst o. reflexivity.
    + subst o. assert (id x <> j) as Hne by (intros E; apply has_id_true in E; congruence).
      specialize (Holder x Hx Hop Hne). lia.
  - exfalso.
    assert (Hrin : In (requeue_row err now r) db1)
      by (rewrite Hdb1; replace (requeue_row err now r) with (g r)
            by (unfold g; rewrite Hh; reflexivity); apply in_map; exact Hr).
    pose proof (oldest_pending_none db1 _ Ho Hrin) as Hnp. discriminate.
Qed.

Definition before_requeue_ops : list queue_op :=
  [OpEnqueue "job-A" "/app/tmp/a.jpg" None 100; OpDequeue 101;
   OpEnqueue "job-B" "/app/tmp/b.jpg" None 102]%string.

Definition job_a_claimed : job_row :=
  claim_row 101 {| id := "job-A"; status := Pending; attempts := 0; max_attempts := 3;
                   image_path := "/app/tmp/a.jpg"; ground_truth := None; result := None;
                   error := None; created_at := 100; updated_at := 100;
                   completed_at := None |}%string.

Lemma requeued_job_keeps_created_at_order_witness :
  lookup "job-A" (run_ops 3 before_requeue_ops) = Some job_a_claimed /\
  option_map id (fst (dequeue 104 (fail "job-A" "timeout" 103 (run_ops 3 before_requeue_ops))))
    = Some "job-A"%string.
Proof.
  assert (Hl : lookup "job-A" (run_ops 3 before_requeue_ops) = Some job_a_claimed)
    by (vm_compute; reflexivity).
  split; [exact Hl|].
  destruct (requeued_job_keeps_created_at_order 3 before_requeue_ops "job-A" "timeout"
              job_a_claimed 103 104) as [_ [_ [_ Hd]]].
  - lia.
  - exact Hl.
  - vm_compute. lia.
  - intros x Hx Hp Hne. vm_compute in Hx.
    destruct Hx as [<-|[<-|[]]]; [vm_compute in Hne; congruence | reflexivity].
  - rewrite Hd. reflexivity.
Defined.

(** ** The call of [extract_text] that gets the lock *)

Local Open Scope string_scope.

Definition lock_deadline (env : ollama_env) : Z := start_ms env + lock_wait_seconds * 1000.

(** With the sentinel present, the lock file open, the lock acquired at
    time [t] and the unlock succeeding, [extract_text] returns what
    [_do_extract] returns. *)
Lemma extract_text_acquired (o : ollama_ocr) (env : ollama_env) (img : string) (t : Z) :
  sentinel_exists env = Returns true -> lock_file_opens env = true ->
  lock_wait (flock_try env) (lock_deadline env) (start_ms env) = (Returns true, t) ->
  unlock_raises env = None ->
  extract_text o env img = (Returns (do_extract o env img t), gate_closed).
Proof.
  intros Hs Ho Hw Hu. unfold extract_text. rewrite Hs, Ho. cbv zeta. simpl negb. cbv iota.
  unfold lock_deadline in Hw. rewrite Hw, Hu. reflexivity.
Qed.

(** ** C8: classification of connect-phase failures *)

Definition ollama_default : ollama_ocr :=
  {| model := "llama3.2-vision"; host := "http://ollama:11434"; timeout := 60 |}.

(** A call that gets the lock at once and whose [chat] raises [c]. *)
Definition env_chat_raises (c : chat_result) : ollama_env :=
  {| sentinel_exists := Returns true; lock_file_opens := true;
     flock_try := fun _ => FlockAcquired; unlock_raises := None;
     image_check := Returns true; chat := c; start_ms := 0 |}.

(** C8 counterexample: a connect-phase timeout ([httpx.ConnectTimeout],
    raised when the 10 s connect bound runs out) comes back from
    [extract_text] with [error_type = "timeout"], not [connection], and its
    error reports the 60 s first-output bound. *)
Lemma connect_timeout_classified_timeout :
  connect_bound (client_timeout ollama_default) = 10 /\
  read_bound (client_timeout ollama_default) = 60 /\
  exists d,
    fst (extract_text ollama_default (env_chat_raises (ChatRaises "ConnectTimeout" "timed out"))
           "/app/tmp/label.jpg") = Returns d /\
    dict_get d "error_type" = Some (PyStr "timeout") /\
    dict_get d "error" = Some (PyStr "Ollama request timed out after 60s. Please retry.").
Proof.
  split; [reflexivity|]. split; [reflexivity|].
  eexists. split; [vm_compute; reflexivity|]. split; vm_compute; reflexivity.
Qed.

(** C8 (as the code has it): the client has a 10 s connect bound separate
    from the read bound, which is the configured timeout.  For a call of
    [extract_text] that reaches the Ollama request: a connect failure
    raised as [ConnectError] comes back with [error_type = "connection"]
    unless its message contains "timeout" (then [timeout]); a connect-phase
    timeout ([ConnectTimeout]) comes back with [error_type = "timeout"],
    timeout-like exceptions being checked first, and its error message
    reports the read bound as the time waited. *)
Theorem connect_failure_classification (o : ollama_ocr) (env : ollama_env) (img msg : string)
    (t : Z) (Hs : sentinel_exists env = Returns true) (Ho : lock_file_opens env = true)
    (Hw : lock_wait (flock_try env) (lock_deadline env) (start_ms env) = (Returns true, t))
    (Hu : unlock_raises env = None) (Hi : image_check env = Returns true) :
  client_timeout o = {| connect_bound := 10; read_bound := timeout o;
                        write_bound := timeout o; pool_bound := timeout o |} /\
  (chat env = ChatRaises "ConnectError" msg ->
   exists d, fst (extract_text o env img) = Returns d /\
     (str_contains "timeout" (str_lower msg) = false ->
        dict_get d "error_type" = Some (PyStr "connection") /\
        dict_get d "error" = Some (PyStr ("Cannot connect to Ollama at " ++ host o ++ ": " ++ msg))) /\
     (str_contains "timeout" (str_lower msg) = true ->
        dict_get d "error_type" = Some (PyStr "timeout"))) /\
  (chat env = ChatRaises "ConnectTimeout" msg ->
   exists d, fst (extract_text o env img) = Returns d /\
     dict_get d "error_type" = Some (PyStr "timeout") /\
     dict_get d "error" = Some (PyStr ("Ollama request timed out after "
                                       ++ z_to_string (read_bound (client_timeout o))
                                       ++ "s. Please retry."))).
Proof.
  rewrite (extract_text_acquired o env img t Hs Ho Hw Hu). simpl fst.
  unfold do_extract. rewrite Hi.
  split; [reflexivity|]. split.
  - intros Hc. rewrite Hc. eexists. split; [reflexivity|].
    unfold extract_error_dict, is_timeout_exc, is_connection_exc.
    change (str_contains "ReadTimeout" "ConnectError") with false.
    change (str_contains "ConnectTimeout" "ConnectError") with false.
    change (str_contains "TimeoutException" "ConnectError") with false.
    change (str_contains "ConnectError" "ConnectError") with true.
    simpl orb. split; intros Ht; rewrite Ht; [split|]; reflexivity.
  - intros Hc. rewrite Hc. eexists. split; [reflexivity|].
    unfold extract_error_dict, is_timeout_exc.
    change (str_contains "ReadTimeout" "ConnectTimeout") with false.
    change (str_contains "ConnectTimeout" "ConnectTimeout") with true.
    split; reflexivity.
Qed.

Lemma connect_failure_classification_witness :
  exists d,
    fst (extract_text ollama_default
           (env_chat_raises (ChatRaises "ConnectError" "[Errno 111] Connection refused"))
           "/app/tmp/label.jpg") = Returns d /\
    dict_get d "error_type" = Some (PyStr "connection").
Proof.
  destruct (connect_failure_classification ollama_default
              (env_chat_raises (ChatRaises "ConnectError" "[Errno 111] Connection refused"))
              "/app/tmp/label.jpg" "[Errno 111] Connection refused" 0
              eq_refl eq_refl ltac:(vm_compute; reflexivity) eq_refl eq_refl)
    as [_ [Hce _]].
  destruct (Hce eq_refl) as [d [Hd [Hn _]]].
  exists d. split; [exact Hd|]. exact (proj1 (Hn eq_refl)).
Defined.

Local Close Scope string_scope.

(** ** C9: the cross-process gate waits a bounded time *)

Lemma lock_wait_spec (lf : Z -> flock_outcome) (deadline t : Z) :
  exists k : nat,
    snd (lock_wait lf deadline t) = t + lock_poll_interval_ms * Z.of_nat k /\
    (forall i : nat, (i < k)%nat ->
       lf (t + lock_poll_interval_ms * Z.of_nat i) = FlockBlocking /\
       t + lock_poll_interval_ms * Z.of_nat i < deadline) /\
    (fst (lock_wait lf deadline t) = Returns true ->
       snd (lock_wait lf deadline t) < deadline /\
       lf (snd (lock_wait lf deadline t)) = FlockAcquired) /\
    (fst (lock_wait lf deadline t) = Returns false -> deadline <= snd (lock_wait lf deadline t)) /\
    (forall ty msg, fst (lock_wait lf deadline t) = Raises ty msg ->
       snd (lock_wait lf deadline t) < deadline /\
       lf (snd (lock_wait lf deadline t)) = FlockRaises ty msg).
Proof.
  funelim (lock_wait lf deadline t); unfold lock_poll_interval_ms in *.
  - exists 0%nat. simpl. split; [lia|]. split; [intros i Hi; lia|].
    split; [discriminate|]. split; [intros _; lia | intros ty msg H; discriminate].
  - exists 0%nat. simpl. split; [lia|]. split; [intros i Hi; lia|].
    split; [intros _; split; [exact Hlt | exact Heq]|].
    split; [discriminate | intros ty msg H; discriminate].
  - destruct H as [k [Hs [Hi [Ht [Hf Hr]]]]]. exists (S k).
    split; [rewrite Hs, Nat2Z.inj_succ; lia|].
    split; [|split; [exact Ht | split; [exact Hf | exact Hr]]].
    intros [|i] Hlt'.
    + simpl. rewrite Z.add_0_r. split; [exact Heq | exact Hlt].
    + replace (t + 200 * Z.of_nat (S i)) with (t + 200 + 200 * Z.of_nat i)
        by (rewrite Nat2Z.inj_succ; lia).
      apply Hi. lia.
  - exists 0%nat. simpl. split; [lia|]. split; [intros i Hi; lia|].
    split; [discriminate|]. split; [discriminate|].
    intros ty0 msg0 H. injection H as <- <-. split; [exact Hlt | exact Heq].
Qed.

Definition busy_result (o : ollama_ocr) (elapsed : Z) : pydict :=
  [("success", PyBool false);
   ("error", PyStr "Ollama is busy. Please retry shortly."%string);
   ("error_type", PyStr "busy"%string);
   ("metadata", metadata o elapsed)]%string.

(** C9: the wait for the lock polls every 200 ms from the start, at most
    150 sleeps; it ends with the lock before the 30 s deadline, or at most
    one poll interval past the deadline without it, and then [extract_text]
    returns the busy result ([success = False], [error_type = "busy"])
    without calling the backend.  (A [flock] error other than
    [BlockingIOError] ends the wait early, before the deadline.) *)
Theorem gate_wait_bounded (o : ollama_ocr) (env : ollama_env) (img : string)
    (Hs : sentinel_exists env = Returns true) (Ho : lock_file_opens env = true) :
  let deadline := start_ms env + lock_wait_seconds * 1000 in
  let res := lock_wait (flock_try env) deadline (start_ms env) in
  (exists k : nat,
     snd res = start_ms env + lock_poll_interval_ms * Z.of_nat k /\ (k <= 150)%nat /\
     (forall i : nat, (i < k)%nat ->
        flock_try env (start_ms env + lock_poll_interval_ms * Z.of_nat i) = FlockBlocking)) /\
  (fst res = Returns true -> snd res < deadline /\ flock_try env (snd res) = FlockAcquired) /\
  (fst res = Returns false ->
     deadline <= snd res < deadline + lock_poll_interval_ms /\
     extract_text o env img = (Returns (busy_result o (snd res - start_ms env)), gate_closed)) /\
  (forall ty msg, fst res = Raises ty msg ->
     snd res < deadline /\ flock_try env (snd res) = FlockRaises ty msg).
Proof.
  intros deadline res.
  assert (Hext : forall t, res = (Returns false, t) ->
            extract_text o env img = (Returns (busy_result o (t - start_ms env)), gate_closed)).
  { intros t Hr. unfold extract_text. rewrite Hs, Ho. cbv zeta. simpl negb. cbv iota.
    fold deadline. fold res. rewrite Hr. reflexivity. }
  destruct (lock_wait_spec (flock_try env) deadline (start_ms env))
    as [k [Hk [Hi [Ht [Hf Hr]]]]].
  fold res in Hk, Ht, Hf, Hr, Hext. clearbody res.
  unfold deadline, lock_wait_seconds, lock_poll_interval_ms in *.
  assert (Hk150 : (k <= 150)%nat).
  { destruct (fst res) as [[|]|ty msg] eqn:Hacq.
    - destruct (Ht eq_refl) as [Hlt _]. lia.
    - specialize (Hf eq_refl). destruct k as [|k']; [lia|].
      destruct (Hi k' (Nat.lt_succ_diag_r k')) as [_ Hlt]. lia.
    - destruct (Hr ty msg eq_refl) as [Hlt _]. lia. }
  split; [exists k; split; [exact Hk | split; [exact Hk150 | intros i Hlt; apply Hi; exact Hlt]]|].
  split; [exact Ht|]. split; [|exact Hr].
  intros Hacq. specialize (Hf Hacq). split.
  - split; [exact Hf|]. destruct k as [|k']; [lia|].
    destruct (Hi k' (Nat.lt_succ_diag_r k')) as [_ Hlt]. lia.
  - apply Hext. destruct res as [acq t]. simpl in Hacq. subst acq. reflexivity.
Qed.

Definition env_lock_busy : ollama_env :=
  {| sentinel_exists := Returns true; lock_file_opens := true;
     flock_try := fun _ => FlockBlocking; unlock_raises := None;
     image_check := Returns true; chat := ChatChunks []; start_ms := 0 |}.

Lemma gate_wait_bounded_witness :
  fst (extract_text ollama_default env_lock_busy "/app/tmp/label.jpg"%string)
    = Returns (busy_result ollama_default 30000).
Proof.
  destruct (gate_wait_bounded ollama_default env_lock_busy "/app/tmp/label.jpg"%string
              eq_refl eq_refl) as [_ [_ [Hbusy _]]].
  assert (Hres : lock_wait (flock_try env_lock_busy)
            (start_ms env_lock_busy + lock_wait_seconds * 1000) (start_ms env_lock_busy)
          = (Returns false, 30000)) by (vm_compute; reflexivity).
  rewrite Hres in Hbusy. destruct (Hbusy eq_refl) as [_ ->]. reflexivity.
Defined.

(** ** C10: the outcomes of [extract_text] *)

Local Open Scope string_scope.

Definition env_no_sentinel : ollama_env :=
  {| sentinel_exists := Returns false; lock_file_opens := true;
     flock_try := fun _ => FlockAcquired; unlock_raises := None;
     image_check := Returns true; chat := ChatChunks []; start_ms := 0 |}.

Definition env_no_image : ollama_env :=
  {| sentinel_exists := Returns true; lock_file_opens := true;
     flock_try := fun _ => FlockAcquired; unlock_raises := None;
     image_check := Returns false; chat := ChatChunks []; start_ms := 0 |}.

Definition env_lock_file_unopenable : ollama_env :=
  {| sentinel_exists := Returns true; lock_file_opens := false;
     flock_try := fun _ => FlockAcquired; unlock_raises := None;
     image_check := Returns true; chat := ChatChunks []; start_ms := 0 |}.

(** The unlock in the [finally] block raises. *)
Definition env_unlock_fails : ollama_env :=
  {| sentinel_exists := Returns true; lock_file_opens := true;
     flock_try := fun _ => FlockAcquired; unlock_raises := Some ("OSError", "[Errno 5] Input/output error");
     image_check := Returns true; chat := ChatChunks ["BRAND"]; start_ms := 0 |}.

(** C10 counterexample: the sentinel failure and the missing-image failure
    return [success = False] with no [error_type] key; an [OSError] from
    opening the lock file propagates out of [extract_text]; and when the
    unlock in the [finally] block raises, the exception propagates with the
    lock still held and its file open. *)
Lemma extract_text_failures_without_error_type :
  (exists d, fst (extract_text ollama_default env_no_sentinel "/app/tmp/label.jpg") = Returns d /\
             dict_get d "success" = Some (PyBool false) /\ dict_get d "error_type" = None) /\
  (exists d, fst (extract_text ollama_default env_no_image "/app/tmp/label.jpg") = Returns d /\
             dict_get d "success" = Some (PyBool false) /\ dict_get d "error_type" = None) /\
  (exists ty msg, fst (extract_text ollama_default env_lock_file_unopenable "/app/tmp/label.jpg")
                  = Raises ty msg) /\
  (exists ty msg, extract_text ollama_default env_unlock_fails "/app/tmp/label.jpg"
                  = (Raises ty msg, {| fd_open := true; lock_held := true |})).
Proof.
  split; [|split; [|split]].
  - eexists. split; [vm_compute; reflexivity|]. split; vm_compute; reflexivity.
  - eexists. split; [vm_compute; reflexivity|]. split; vm_compute; reflexivity.
  - do 2 eexists. vm_compute. reflexivity.
  - do 2 eexists. vm_compute. reflexivity.
Qed.

Definition ocr_error_types : list string := ["busy"; "timeout"; "connection"; "error"].

Ltac split_ifs := repeat match goal with
  | |- context [if ?b then _ else _] => destruct b
  | H : context [if ?b then _ else _] |- _ => destruct b
  end.

Lemma extract_error_dict_shape (o : ollama_ocr) (ty msg : string) (el : Z) :
  let d := extract_error_dict o ty msg el in
  dict_get d "success" = Some (PyBool false) /\
  (exists e, dict_get d "error" = Some (PyStr e)) /\
  exists s, dict_get d "error_type" = Some (PyStr s) /\ In s ocr_error_types.
Proof.
  unfold extract_error_dict. split_ifs; simpl;
    (split; [reflexivity|]); (split; [eexists; reflexivity|]);
    eexists; (split; [reflexivity | simpl; tauto]).
Qed.

(** C10 (as the code has it): [extract_text] raises in four cases and
    returns a dict otherwise: [Path.exists()] on the sentinel raises an
    exception that is not a [RuntimeError]; the sentinel is present and
    opening the lock file raises; [flock] raises an exception other than
    [BlockingIOError] while waiting for the lock; the lock is acquired and
    the unlock in the [finally] block raises.  Every failure it returns has
    [success = False] and an [error] message; [error_type], when present,
    is one of busy, timeout, connection, error, and it is absent only on the
    sentinel failure and the missing-image failure.  The lock is released
    and its file closed on every exit except two: when [flock] raises the
    file is left open, and when the unlock raises the lock stays held and
    the file open. *)
Theorem extract_text_outcomes (o : ollama_ocr) (env : ollama_env) (img : string) :
  let r := extract_text o env img in
  let w := lock_wait (flock_try env) (lock_deadline env) (start_ms env) in
  let gate_open := sentinel_exists env = Returns true /\ lock_file_opens env = true in
  let flock_error := gate_open /\ exists ty msg, fst w = Raises ty msg in
  let unlock_error := gate_open /\ fst w = Returns true /\ unlock_raises env <> None in
  ((exists ty msg, fst r = Raises ty msg) <->
     (exists ty msg, sentinel_exists env = Raises ty msg /\ is_runtime_error ty = false) \/
     (sentinel_exists env = Returns true /\ lock_file_opens env = false) \/
     flock_error \/ unlock_error) /\
  (forall d, fst r = Returns d -> dict_get d "success" = Some (PyBool false) ->
     (exists e, dict_get d "error" = Some (PyStr e)) /\
     (forall v, dict_get d "error_type" = Some v -> exists s, v = PyStr s /\ In s ocr_error_types) /\
     (dict_get d "error_type" = None ->
        sentinel_exists env <> Returns true \/ image_check env = Returns false)) /\
  (flock_error -> snd r = {| fd_open := true; lock_held := false |}) /\
  (unlock_error -> snd r = {| fd_open := true; lock_held := true |}) /\
  (~ flock_error -> ~ unlock_error -> snd r = gate_closed).
Proof.
  intros r w gate_open flock_error unlock_error.
  unfold r, flock_error, unlock_error, gate_open. clear r flock_error unlock_error gate_open.
  unfold extract_text. fold (lock_deadline env). fold w.
  destruct (sentinel_exists env) as [[|]|ty msg] eqn:Hs.
  2:{ (* the sentinel is absent *)
      cbn. split; [|split; [|split; [|split]]].
      - split; [intros [ty [msg H]]; discriminate|].
        intros [[ty [msg [H _]]]|[[H _]|[[[H _] _]|[[H _] _]]]]; discriminate.
      - intros d H _. injection H as <-.
        split; [eexists; reflexivity|]. split; [intros v Hv; discriminate|].
        intros _. left. discriminate.
      - intros [[H _] _]. discriminate.
      - intros [[H _] _]. discriminate.
      - intros _ _. reflexivity. }
  2:{ (* Path.exists() raises *)
      destruct (is_runtime_error ty) eqn:Hrt; cbn.
      - split; [|split; [|split; [|split]]].
        + split; [intros [ty' [msg' H]]; discriminate|].
          intros [[ty' [msg' [H Hf]]]|[[H _]|[[[H _] _]|[[H _] _]]]]; try discriminate.
          injection H as <- _. change (is_runtime_error ty = false) in Hf. congruence.
        + intros d H _. injection H as <-.
          split; [eexists; reflexivity|]. split; [intros v Hv; discriminate|].
          intros _. left. discriminate.
        + intros [[H _] _]. discriminate.
        + intros [[H _] _]. discriminate.
        + intros _ _. reflexivity.
      - split; [|split; [|split; [|split]]].
        + split; [intros _; left; exists ty, msg; split; [reflexivity | exact Hrt]|].
          intros _. exists ty, msg. reflexivity.
        + intros d H. discriminate.
        + intros [[H _] _]. discriminate.
        + intros [[H _] _]. discriminate.
        + intros _ _. reflexivity. }
  destruct (lock_file_opens env) eqn:Ho; simpl negb; cbv iota.
  2:{ split; [|split; [|split; [|split]]].
      - split; [intros _; right; left; split; reflexivity|].
        intros _. do 2 eexists. reflexivity.
      - intros d H. discriminate.
      - intros [[_ H] _]. discriminate.
      - intros [[_ H] _]. discriminate.
      - intros _ _. reflexivity. }
  destruct w as [[[|]|ty msg] t] eqn:Hw; simpl fst.
  - (* the lock is acquired *)
    destruct (unlock_raises env) as [[ty msg]|] eqn:Hu.
    + split; [|split; [|split; [|split]]].
      * split; [intros _; right; right; right; split; [split; reflexivity|];
                split; [reflexivity | discriminate]|].
        intros _. do 2 eexists. reflexivity.
      * intros d H. discriminate.
      * intros [_ [ty' [msg' H]]]. discriminate.
      * intros _. reflexivity.
      * intros _ Hn. exfalso. apply Hn. split; [split; reflexivity|].
        split; [reflexivity | discriminate].
    + split; [|split; [|split; [|split]]].
      * split; [intros [ty [msg H]]; discriminate|].
        intros [[ty [msg [H _]]]|[[_ H]|[[_ [ty [msg H]]]|[_ [_ H]]]]];
          try discriminate; congruence.
      * intros d H Hsucc. injection H as <-. unfold do_extract in *.
        destruct (image_check env) as [[|]|ty msg] eqn:Hi.
        -- destruct (chat env) as [chunks | ty msg]; [discriminate|].
           destruct (extract_error_dict_shape o ty msg (t - start_ms env)) as [_ [He [s [Ht Hin]]]].
           split; [exact He|]. rewrite Ht.
           split; [intros v Hv; injection Hv as <-; exists s; split; [reflexivity | exact Hin]|].
           discriminate.
        -- split; [eexists; reflexivity|].
           split; [intros v Hv; discriminate | intros _; right; reflexivity].
        -- destruct (extract_error_dict_shape o ty msg (t - start_ms env)) as [_ [He [s [Ht Hin]]]].
           split; [exact He|]. rewrite Ht.
           split; [intros v Hv; injection Hv as <-; exists s; split; [reflexivity | exact Hin]|].
           discriminate.
      * intros [_ [ty [msg H]]]. discriminate.
      * intros [_ [_ H]]. congruence.
      * intros _ _. reflexivity.
  - (* the wait runs out: busy *)
    split; [|split; [|split; [|split]]].
    + split; [intros [ty [msg H]]; discriminate|].
      intros [[ty [msg [H _]]]|[[_ H]|[[_ [ty [msg H]]]|[_ [H _]]]]]; discriminate.
    + intros d H _. injection H as <-.
      split; [eexists; reflexivity|].
      split; [intros v Hv; injection Hv as <-; eexists; split; [reflexivity | simpl; tauto]|].
      discriminate.
    + intros [_ [ty [msg H]]]. discriminate.
    + intros [_ [H _]]. discriminate.
    + intros _ _. reflexivity.
  - (* flock raises *)
    split; [|split; [|split; [|split]]].
    + split; [intros _; right; right; left; split; [split; reflexivity|];
              exists ty, msg; reflexivity|].
      intros _. exists ty, msg. reflexivity.
    + intros d H. discriminate.
    + intros _. reflexivity.
    + intros [_ [H _]]. discriminate.
    + intros Hn _. exfalso. apply Hn. split; [split; reflexivity|]. exists ty, msg. reflexivity.
Qed.

Lemma extract_text_outcomes_witness :
  (exists ty msg, fst (extract_text ollama_default env_unlock_fails "/app/tmp/label.jpg")
                  = Raises ty msg) /\
  snd (extract_text ollama_default env_unlock_fails "/app/tmp/label.jpg")
    = {| fd_open := true; lock_held := true |}.
Proof.
  assert (Hu : (sentinel_exists env_unlock_fails = Returns true /\
                lock_file_opens env_unlock_fails = true) /\
               fst (lock_wait (flock_try env_unlock_fails) (lock_deadline env_unlock_fails)
                      (start_ms env_unlock_fails)) = Returns true /\
               unlock_raises env_unlock_fails <> None)
    by (split; [split; reflexivity|]; split; [vm_compute; reflexivity | discriminate]).
  destruct (extract_text_outcomes ollama_default env_unlock_fails "/app/tmp/label.jpg")
    as [Hiff [_ [_ [Hheld _]]]].
  split.
  - apply Hiff. right. right. right. exact Hu.
  - exact (Hheld Hu).
Defined.

Local Close Scope string_scope.

(** * Further properties of the queue, the worker, the job files and the validator *)

(** ** Queue helpers *)

Lemma has_id_refl (r : job_row) : has_id (id r) r = true.
Proof. apply has_id_true. reflexivity. Qed.

Lemma lookup_none_all (j : string) (db : table) :
  lookup j db = None -> forall r, In r db -> has_id j r = false.
Proof. unfold lookup. intros H r Hr. exact (find_none _ _ H r Hr). Qed.

Lemma lookup_app_none (j : string) (db extra : table) :
  lookup j db = None -> lookup j (db ++ extra) = lookup j extra.
Proof.
  unfold lookup. induction db as [|x rest IH]; simpl; [reflexivity|].
  destruct (has_id j x); [discriminate | exact IH].
Qed.

Lemma existsb_has_id (j : string) (db : table) :
  existsb (has_id j) db = match lookup j db with Some _ => true | None => false end.
Proof.
  unfold lookup. induction db as [|x rest IH]; simpl; [reflexivity|].
  destruct (has_id j x); [reflexivity | exact IH].
Qed.

Lemma lookup_in_nodup (db : table) (r : job_row) :
  NoDup (map id db) -> In r db -> lookup (id r) db = Some r.
Proof.
  intros Hnd Hr. destruct (lookup (id r) db) as [r'|] eqn:Hl.
  - apply lookup_some in Hl as [Hr' Hid]. f_equal. apply (nodup_ids_unique db); auto.
  - pose proof (lookup_none_all _ _ Hl r Hr) as H. rewrite has_id_refl in H. discriminate.
Qed.

(** Rows with another id are left alone by a map that changes only rows
    with id [j]. *)
Lemma lookup_map_other (g : job_row -> job_row) (p : job_row -> bool) (j k : string) (db : table) :
  (forall r, id (g r) = id r) -> (forall r, p r = true -> id r = j) -> k <> j ->
  lookup k (map (fun r => if p r then g r else r) db) = lookup k db.
Proof.
  intros Hg Hp Hk. rewrite lookup_map.
  - destruct (lookup k db) as [r|] eqn:Hl; [|reflexivity]. simpl.
    apply lookup_some in Hl as [_ Hid]. destruct (p r) eqn:Hpr; [|reflexivity].
    apply Hp in Hpr. congruence.
  - intros r. destruct (p r); [apply Hg | reflexivity].
Qed.

Lemma map_absent_id (g : job_row -> job_row) (k : string) (db : table) :
  ~ In k (map id db) -> map (fun x => if has_id k x then g x else x) db = db.
Proof.
  induction db as [|x rest IH]; simpl; intros Hout; [reflexivity|].
  destruct (has_id k x) eqn:Hx.
  - apply has_id_true in Hx. exfalso. apply Hout. left. exact Hx.
  - f_equal. apply IH. intros H. apply Hout. right. exact H.
Qed.

(** Counting through a change of the one row with a given id. *)
Lemma count_map_one (p : job_row -> bool) (g : job_row -> job_row) (db : table) (r : job_row) :
  NoDup (map id db) -> In r db ->
  (length (filter p (map (fun x => if has_id (id r) x then g x else x) db))
   + (if p r then 1 else 0) = length (filter p db) + (if p (g r) then 1 else 0))%nat.
Proof.
  induction db as [|x rest IH]; simpl; intros Hnd Hin; [contradiction|].
  apply NoDup_cons_iff in Hnd as [Hout Hrest].
  destruct Hin as [<-|Hin].
  - rewrite has_id_refl, map_absent_id by exact Hout.
    destruct (p x), (p (g x)); simpl; lia.
  - assert (has_id (id r) x = false) as Hx.
    { destruct (has_id (id r) x) eqn:Hx; [|reflexivity].
      apply has_id_true in Hx. exfalso. apply Hout. rewrite Hx. apply in_map. exact Hin. }
    rewrite Hx. specialize (IH Hrest Hin).
    destruct (p x); simpl; lia.
Qed.

Lemma apply_op_nodup (m : nat) (op : queue_op) (db : table) :
  NoDup (map id db) -> NoDup (map id (apply_op m op db)).
Proof.
  intros Hnd.
  assert (Hmap : forall (p : job_row -> bool) (f : job_row -> job_row),
            (forall r, id (f r) = id r) ->
            NoDup (map id (snd (update_where p f db)))).
  { intros p f Hf. rewrite update_where_map, map_ids_preserved; [exact Hnd|].
    intros r. destruct (p r); [apply Hf | reflexivity]. }
  destruct op as [j img gt now | now | j res now | j err now | j now | ret now]; simpl.
  - unfold enqueue. destruct (existsb (has_id j) db) eqn:Hex; [exact Hnd|].
    rewrite map_app. simpl. apply NoDup_app; [exact Hnd | constructor; [tauto | constructor] |].
    intros x Hx Hx'. simpl in Hx'. destruct Hx' as [<-|[]].
    apply in_map_iff in Hx as [r [Hrid Hr]].
    assert (existsb (has_id j) db = true) as Htrue.
    { apply existsb_exists. exists r. split; [exact Hr|]. apply has_id_true. exact Hrid. }
    congruence.
  - unfold dequeue, dequeue_select. destruct (oldest_pending db) as [row|]; [|exact Hnd].
    apply Hmap. reflexivity.
  - apply Hmap. reflexivity.
  - unfold fail. destruct (lookup j db) as [row|]; [|exact Hnd].
    destruct (attempts row <? max_attempts row)%nat; apply Hmap; reflexivity.
  - unfold cancel.
    destruct (update_where (fun r => has_id j r && is_pending r) (cancel_row now) db)
      as [n db'] eqn:Hu; simpl.
    assert (db' = snd (update_where (fun r => has_id j r && is_pending r) (cancel_row now) db))
      as -> by (rewrite Hu; reflexivity).
    apply Hmap. reflexivity.
  - unfold cleanup_old_jobs. rewrite delete_where_filter. apply delete_keeps_ids_unique. exact Hnd.
Qed.

Lemma run_ops_nodup (m : nat) (ops : list queue_op) : NoDup (map id (run_ops m ops)).
Proof.
  unfold run_ops. assert (H : NoDup (map id ([] : table))) by constructor.
  revert H. generalize ([] : table).
  induction ops as [|op ops IH]; simpl; intros db Hnd; [exact Hnd|].
  apply IH. apply apply_op_nodup. exact Hnd.
Qed.

(** ** X: [enqueue] and [get] *)

(** [enqueue] refuses an id already in the table (the primary key); with a
    fresh id, [get] finds the new row pending with no attempts, the
    configured [max_attempts], [created_at = updated_at = now] and the ground
    truth when it is a non-empty dict ([None] for [None] or [{}]), every
    other id reads as before, and the pending count grows by one. *)
Theorem enqueue_get_roundtrip (m : nat) (j img : string) (gt : option pydict) (now : Z)
    (db : table) :
  (lookup j db <> None -> enqueue m j img gt now db = None) /\
  (lookup j db = None ->
   exists db', enqueue m j img gt now db = Some db' /\
     lookup j db' = Some {| id := j; status := Pending; attempts := 0; max_attempts := m;
                            image_path := img;
                            ground_truth := if gt_truthy gt then gt else None; result := None;
                            error := None; created_at := now; updated_at := now;
                            completed_at := None |} /\
     (forall k, k <> j -> lookup k db' = lookup k db) /\
     queue_depth db' = S (queue_depth db)).
Proof.
  unfold enqueue. rewrite existsb_has_id. split.
  - intros H. destruct (lookup j db); [reflexivity | congruence].
  - intros H. rewrite H. eexists. split; [reflexivity|]. split; [|split].
    + rewrite lookup_app_none by exact H. unfold lookup. simpl.
      rewrite (proj2 (has_id_true j _)) by reflexivity. reflexivity.
    + intros k Hk. destruct (lookup k db) as [r|] eqn:Hl.
      * apply lookup_app_left. exact Hl.
      * rewrite lookup_app_none by exact Hl. unfold lookup. simpl.
        destruct (has_id k _) eqn:Hh; [|reflexivity].
        apply has_id_true in Hh. simpl in Hh. congruence.
    + unfold queue_depth. rewrite filter_app, length_app. simpl. lia.
Qed.

Lemma enqueue_get_roundtrip_witness :
  lookup "job-2" one_pending_job = None /\
  exists db', enqueue 3 "job-2" "/app/tmp/b.jpg" None 200 one_pending_job = Some db' /\
    lookup "job-2" db' = Some {| id := "job-2"; status := Pending; attempts := 0;
                                 max_attempts := 3; image_path := "/app/tmp/b.jpg";
                                 ground_truth := None; result := None; error := None;
                                 created_at := 200; updated_at := 200;
                                 completed_at := None |} /\
    (forall k, k <> "job-2"%string -> lookup k db' = lookup k one_pending_job) /\
    queue_depth db' = S (queue_depth one_pending_job).
Proof.
  assert (H : lookup "job-2" one_pending_job = None) by reflexivity.
  split; [exact H|].
  exact (proj2 (enqueue_get_roundtrip 3 "job-2" "/app/tmp/b.jpg" None 200 one_pending_job) H).
Defined.

(** ** X: [queue_depth] along [dequeue] and [cancel] *)

(** On a table the queue operations built: [dequeue] finds nothing exactly
    when [queue_depth] is 0; a [dequeue] that returns a job and a [cancel]
    that returns [True] each lower [queue_depth] by one. *)
Theorem queue_depth_accounting (m : nat) (ops : list queue_op) (now : Z) (j : string) :
  let db := run_ops m ops in
  (fst (dequeue now db) = None <-> queue_depth db = 0%nat) /\
  (forall job, fst (dequeue now db) = Some job ->
     queue_depth (snd (dequeue now db)) = pred (queue_depth db)) /\
  (fst (cancel j now db) = true ->
     queue_depth (snd (cancel j now db)) = pred (queue_depth db)).
Proof.
  intros db. pose proof (run_ops_nodup m ops) as Hnd. fold db in Hnd.
  clearbody db. unfold queue_depth. split; [|split].
  - unfold dequeue, dequeue_select. destruct (oldest_pending db) as [row|] eqn:Ho.
    + simpl. split; [discriminate|]. intros H0.
      apply oldest_pending_some in Ho as [Hin Hp].
      assert (In row (filter is_pending db)) as Hf by (apply filter_In; auto).
      apply length_zero_iff_nil in H0. rewrite H0 in Hf. contradiction.
    + simpl. split; [intros _|reflexivity].
      destruct (filter is_pending db) as [|x xs] eqn:Hf; [reflexivity|].
      assert (In x (filter is_pending db)) as Hx by (rewrite Hf; left; reflexivity).
      apply filter_In in Hx as [Hx Hp].
      rewrite (oldest_pending_none db x Ho Hx) in Hp. discriminate.
  - intros job. unfold dequeue, dequeue_select. destruct (oldest_pending db) as [row|] eqn:Ho;
      [|discriminate]. intros _.
    apply oldest_pending_some in Ho as [Hin Hp].
    unfold dequeue_update. simpl. rewrite update_where_map.
    pose proof (count_map_one is_pending (claim_row now) db row Hnd Hin) as Hc.
    assert (is_pending (claim_row now row) = false) as Hq by reflexivity.
    rewrite Hp, Hq in Hc. lia.
  - unfold cancel.
    destruct (update_where (fun r => has_id j r && is_pending r) (cancel_row now) db)
      as [n db'] eqn:Hu; simpl. intros Hn.
    pose proof (update_where_count (fun r => has_id j r && is_pending r) (cancel_row now) db) as Hcnt.
    pose proof (update_where_map (fun r => has_id j r && is_pending r) (cancel_row now) db) as Hm.
    rewrite Hu in Hcnt, Hm. simpl in Hcnt, Hm. subst db'.
    apply Nat.ltb_lt in Hn.
    destruct (filter (fun r => has_id j r && is_pending r) db) as [|r rs] eqn:Hf;
      [simpl in Hcnt; lia|].
    assert (In r (filter (fun r => has_id j r && is_pending r) db)) as Hr by (rewrite Hf; left; reflexivity).
    apply filter_In in Hr as [Hin Hjp]. apply andb_true_iff in Hjp as [Hj Hp].
    apply has_id_true in Hj.
    rewrite (map_ext_in (fun r0 => if has_id j r0 && is_pending r0 then cancel_row now r0 else r0)
               (fun r0 => if has_id (id r) r0 then cancel_row now r0 else r0)).
    + pose proof (count_map_one is_pending (cancel_row now) db r Hnd Hin) as Hc.
      assert (is_pending (cancel_row now r) = false) as Hq by reflexivity.
      rewrite Hp, Hq in Hc. lia.
    + intros x Hx. rewrite Hj. destruct (has_id j x) eqn:Hjx; simpl; [|reflexivity].
      apply has_id_true in Hjx.
      assert (x = r) as -> by (apply (nodup_ids_unique db); congruence).
      rewrite Hp. reflexivity.
Qed.

(** ** X: what [dequeue] returns and what it stores *)

(** On a table the queue operations built, a [dequeue] that returns a job
    claims the pending row with the smallest [created_at]: the stored row
    gets status [processing], one more attempt and [updated_at = now]; the
    returned dict is that row as well, except that its [updated_at] is the
    value from before the claim. *)
Theorem dequeue_returns_stale_updated_at (m : nat) (ops : list queue_op) (now : Z)
    (job : job_row) :
  fst (dequeue now (run_ops m ops)) = Some job ->
  exists r, oldest_pending (run_ops m ops) = Some r /\
    (forall x, In x (run_ops m ops) -> status x = Pending -> created_at r <= created_at x) /\
    lookup (id job) (snd (dequeue now (run_ops m ops))) = Some (claim_row now r) /\
    job = claimed_job r /\
    status job = Processing /\ attempts job = S (attempts r) /\ updated_at job = updated_at r.
Proof.
  pose proof (run_ops_nodup m ops) as Hnd. generalize dependent (run_ops m ops). intros db Hnd.
  unfold dequeue, dequeue_select. destruct (oldest_pending db) as [row|] eqn:Ho; [|discriminate].
  unfold dequeue_update. simpl. intros Hj. injection Hj as <-.
  exists row. split; [reflexivity|]. split.
  { intros x Hx Hp. apply (oldest_pending_min db row x Ho Hx). apply is_pending_true. exact Hp. }
  apply oldest_pending_some in Ho as [Hin _].
  split; [|repeat split].
  rewrite update_where_map, lookup_map.
  - simpl. rewrite (lookup_in_nodup db row Hnd Hin). simpl. rewrite has_id_refl. reflexivity.
  - intros r. destruct (has_id (id row) r); reflexivity.
Qed.

Definition two_pending_jobs : list queue_op :=
  [OpEnqueue "job-1" "/app/tmp/a.jpg" None 100; OpEnqueue "job-2" "/app/tmp/b.jpg" None 150].

Lemma dequeue_returns_stale_updated_at_witness :
  exists job, fst (dequeue 200 (run_ops 3 two_pending_jobs)) = Some job /\
  exists r, oldest_pending (run_ops 3 two_pending_jobs) = Some r /\
    (forall x, In x (run_ops 3 two_pending_jobs) -> status x = Pending -> created_at r <= created_at x) /\
    lookup (id job) (snd (dequeue 200 (run_ops 3 two_pending_jobs))) = Some (claim_row 200 r) /\
    job = claimed_job r /\
    status job = Processing /\ attempts job = S (attempts r) /\ updated_at job = updated_at r.
Proof.
  eexists. split; [vm_compute; reflexivity|].
  apply dequeue_returns_stale_updated_at. vm_compute. reflexivity.
Defined.

(** ** X: [complete], [fail] and [cancel] touch only their own job *)

(** [complete], [fail] and [cancel] leave every row with another id as it
    was, and on an id that is not in the table they change nothing (no
    exception: [fail] only logs a warning). *)
Theorem job_ops_touch_only_their_row (m : nat) (op : queue_op) (db : table) (j : string) :
  op_target op = Some j ->
  (forall k, k <> j -> lookup k (apply_op m op db) = lookup k db) /\
  (lookup j db = None -> apply_op m op db = db).
Proof.
  intros Ht.
  destruct op as [j' img gt now | now | j' res now | j' err now | j' now | ret now];
    simpl in Ht; try discriminate; injection Ht as ->; simpl.
  - unfold complete. split.
    + intros k Hk. rewrite update_where_map.
      apply (lookup_map_other _ _ j); [reflexivity | intros r Hr; apply has_id_true; exact Hr | exact Hk].
    + intros Hl. rewrite update_where_none; [reflexivity|]. apply lookup_none_all. exact Hl.
  - unfold fail. destruct (lookup j db) as [row|] eqn:Hl; [|split; [reflexivity | reflexivity]].
    split; [|discriminate].
    intros k Hk. destruct (attempts row <? max_attempts row)%nat; rewrite update_where_map;
      (apply (lookup_map_other _ _ j); [reflexivity | intros r Hr; apply has_id_true; exact Hr | exact Hk]).
  - unfold cancel.
    destruct (update_where (fun r => has_id j r && is_pending r) (cancel_row now) db)
      as [n db'] eqn:Hu; simpl.
    assert (db' = snd (update_where (fun r => has_id j r && is_pending r) (cancel_row now) db))
      as -> by (rewrite Hu; reflexivity).
    split.
    + intros k Hk. rewrite update_where_map.
      apply (lookup_map_other _ _ j); [reflexivity | | exact Hk].
      intros r Hr. apply andb_true_iff in Hr as [Hr _]. apply has_id_true. exact Hr.
    + intros Hl. rewrite update_where_none; [reflexivity|].
      intros r Hr. rewrite (lookup_none_all j db Hl r Hr). reflexivity.
Qed.

Lemma job_ops_touch_only_their_row_witness :
  op_target (OpFail "job-9" "boom" 300) = Some "job-9"%string /\
  lookup "job-9" one_pending_job = None /\
  apply_op 3 (OpFail "job-9" "boom" 300) one_pending_job = one_pending_job.
Proof.
  assert (Ht : op_target (OpFail "job-9" "boom" 300) = Some "job-9"%string) by reflexivity.
  assert (Hl : lookup "job-9" one_pending_job = None) by reflexivity.
  split; [exact Ht|]. split; [exact Hl|].
  exact (proj2 (job_ops_touch_only_their_row 3 _ one_pending_job "job-9" Ht) Hl).
Defined.

(** ** X: a job is handed out once per attempt *)

Lemma attempts_of_map (g : job_row -> job_row) (j : string) (db : table) :
  (forall r, id (g r) = id r) -> (forall r, attempts (g r) = attempts r) ->
  attempts_of j (map g db) = attempts_of j db.
Proof.
  intros Hid Ha. unfold attempts_of. rewrite lookup_map by exact Hid.
  destruct (lookup j db); simpl; [apply Ha | reflexivity].
Qed.

Lemma attempts_of_update (p : job_row -> bool) (f : job_row -> job_row) (j : string) (db : table) :
  (forall r, id (f r) = id r) -> (forall r, attempts (f r) = attempts r) ->
  attempts_of j (snd (update_where p f db)) = attempts_of j db.
Proof.
  intros Hid Ha. rewrite update_where_map. apply attempts_of_map.
  - intros r. destruct (p r); [apply Hid | reflexivity].
  - intros r. destruct (p r); [apply Ha | reflexivity].
Qed.

Lemma apply_op_attempts_of (m : nat) (op : queue_op) (db : table) (j : string) :
  is_cleanup op = false ->
  (count_occ string_dec (op_claimed op db) j + attempts_of j db = attempts_of j (apply_op m op db))%nat.
Proof.
  intros Hc.
  destruct op as [j' img gt now | now | j' res now | j' err now | j' now | ret now];
    simpl in Hc |- *; try discriminate.
  - unfold enqueue. destruct (existsb (has_id j') db) eqn:Hex; [reflexivity|].
    unfold attempts_of. destruct (lookup j db) as [r|] eqn:Hl.
    + rewrite (lookup_app_left _ _ _ _ Hl). reflexivity.
    + rewrite lookup_app_none by exact Hl. unfold lookup. simpl.
      destruct (has_id j _); reflexivity.
  - unfold dequeue, dequeue_select. destruct (oldest_pending db) as [row|] eqn:Ho; [|reflexivity].
    unfold dequeue_update. simpl. rewrite update_where_map.
    unfold attempts_of. rewrite lookup_map.
    2:{ intros r. destruct (has_id (id row) r); reflexivity. }
    destruct (string_dec (id row) j) as [Heq|Hne].
    + destruct (lookup j db) as [r|] eqn:Hl.
      * simpl. apply lookup_some in Hl as [_ Hid].
        rewrite (proj2 (has_id_true (id row) r)) by congruence. reflexivity.
      * apply oldest_pending_some in Ho as [Hin _].
        pose proof (lookup_none_all j db Hl row Hin) as H. rewrite <- Heq, has_id_refl in H.
        discriminate.
    + destruct (lookup j db) as [r|] eqn:Hl; simpl; [|reflexivity].
      apply lookup_some in Hl as [_ Hid].
      destruct (has_id (id row) r) eqn:Hh; [|reflexivity].
      apply has_id_true in Hh. congruence.
  - unfold complete. apply eq_sym, attempts_of_update; reflexivity.
  - unfold fail. destruct (lookup j' db) as [row|]; [|reflexivity].
    destruct (attempts row <? max_attempts row)%nat; apply eq_sym, attempts_of_update; reflexivity.
  - unfold cancel.
    destruct (update_where (fun r => has_id j' r && is_pending r) (cancel_row now) db)
      as [n db'] eqn:Hu; simpl.
    assert (db' = snd (update_where (fun r => has_id j' r && is_pending r) (cancel_row now) db))
      as -> by (rewrite Hu; reflexivity).
    apply eq_sym, attempts_of_update; reflexivity.
Qed.

Lemma claims_from_attempts (m : nat) (ops : list queue_op) (db : table) (j : string) :
  forallb (fun op => negb (is_cleanup op)) ops = true ->
  (count_occ string_dec (claims_from m ops db) j + attempts_of j db
   = attempts_of j (fold_left (fun db op => apply_op m op db) ops db))%nat.
Proof.
  revert db. induction ops as [|op ops IH]; simpl; intros db Hn; [reflexivity|].
  apply andb_true_iff in Hn as [Hop Hn]. apply negb_true_iff in Hop.
  rewrite count_occ_app, <- (IH _ Hn), <- (apply_op_attempts_of m op db j Hop). lia.
Qed.

Lemma apply_op_max_attempts (m : nat) (op : queue_op) (db : table) :
  (forall r, In r db -> max_attempts r = m) ->
  forall r, In r (apply_op m op db) -> max_attempts r = m.
Proof.
  intros Hm.
  assert (Hmap : forall (p : job_row -> bool) (f : job_row -> job_row),
            (forall r, max_attempts (f r) = max_attempts r) ->
            forall r, In r (snd (update_where p f db)) -> max_attempts r = m).
  { intros p f Hf r Hr. rewrite update_where_map in Hr.
    apply in_map_iff in Hr as [r0 [<- Hr0]].
    destruct (p r0); [rewrite Hf|]; apply Hm; exact Hr0. }
  destruct op as [j img gt now | now | j res now | j err now | j now | ret now]; simpl.
  - unfold enqueue. destruct (existsb (has_id j) db); [exact Hm|].
    intros r Hr. apply in_app_or in Hr as [Hr|[<-|[]]]; [apply Hm; exact Hr | reflexivity].
  - unfold dequeue, dequeue_select. destruct (oldest_pending db) as [row|]; [|exact Hm].
    apply Hmap. reflexivity.
  - apply Hmap. reflexivity.
  - unfold fail. destruct (lookup j db) as [row|]; [|exact Hm].
    destruct (attempts row <? max_attempts row)%nat; apply Hmap; reflexivity.
  - unfold cancel.
    destruct (update_where (fun r => has_id j r && is_pending r) (cancel_row now) db)
      as [n db'] eqn:Hu; simpl.
    assert (db' = snd (update_where (fun r => has_id j r && is_pending r) (cancel_row now) db))
      as -> by (rewrite Hu; reflexivity).
    apply Hmap. reflexivity.
  - unfold cleanup_old_jobs. rewrite delete_where_filter.
    intros r Hr. apply filter_In in Hr as [Hr _]. apply Hm. exact Hr.
Qed.

Lemma run_ops_max_attempts (m : nat) (ops : list queue_op) :
  forall r, In r (run_ops m ops) -> max_attempts r = m.
Proof.
  unfold run_ops. assert (H : forall r, In r ([] : table) -> max_attempts r = m) by (intros r []).
  revert H. generalize ([] : table).
  induction ops as [|op ops IH]; simpl; intros db Hdb; [exact Hdb|].
  apply IH. apply apply_op_max_attempts. exact Hdb.
Qed.

(** Over a sequence of queue operations with no retention sweep, the
    number of times [dequeue] returns job [j] is the [attempts] of [j]'s
    row (0 when there is none); with [max_attempts >= 1] it is at most
    [max_attempts]: no job is handed out more often than its retry budget
    allows. *)
Theorem claims_match_attempts (m : nat) (ops : list queue_op) (j : string)
    (Hm : (1 <= m)%nat)
    (Hnc : forallb (fun op => negb (is_cleanup op)) ops = true) :
  count_occ string_dec (claims m ops) j = attempts_of j (run_ops m ops) /\
  (count_occ string_dec (claims m ops) j <= m)%nat.
Proof.
  pose proof (claims_from_attempts m ops [] j Hnc) as H.
  unfold claims. unfold attempts_of at 2 in H. simpl in H. rewrite Nat.add_0_r in H.
  split; [exact H|]. rewrite H. unfold attempts_of, run_ops.
  destruct (lookup j (fold_left (fun db op => apply_op m op db) ops [])) as [r|] eqn:Hl; [|lia].
  apply lookup_some in Hl as [Hin _].
  destruct (run_ops_inv m Hm ops) as [_ Hok]. unfold run_ops in Hok.
  destruct (Hok r Hin) as [Hle _].
  rewrite (run_ops_max_attempts m ops r Hin) in Hle. exact Hle.
Qed.

Definition retried_job_ops : list queue_op :=
  [OpEnqueue "job-1" "/app/tmp/a.jpg" None 100; OpDequeue 110; OpFail "job-1" "timeout" 120;
   OpDequeue 130; OpFail "job-1" "timeout" 140; OpDequeue 150; OpFail "job-1" "timeout" 160;
   OpDequeue 170].

Lemma claims_match_attempts_witness :
  (1 <= 3)%nat /\ forallb (fun op => negb (is_cleanup op)) retried_job_ops = true /\
  count_occ string_dec (claims 3 retried_job_ops) "job-1"%string = 3%nat /\
  attempts_of "job-1" (run_ops 3 retried_job_ops) = 3%nat.
Proof.
  assert (Hm : (1 <= 3)%nat) by lia.
  assert (Hnc : forallb (fun op => negb (is_cleanup op)) retried_job_ops = true) by reflexivity.
  destruct (claims_match_attempts 3 retried_job_ops "job-1"%string Hm Hnc) as [Heq _].
  split; [exact Hm|]. split; [exact Hnc|].
  assert (Ha : attempts_of "job-1" (run_ops 3 retried_job_ops) = 3%nat) by (vm_compute; reflexivity).
  split; [rewrite Heq; exact Ha | exact Ha].
Defined.

(** ** The worker loop *)

Lemma in_update_has_id (j : string) (f : job_row -> job_row) (db : table) (r : job_row) :
  (forall x, id (f x) = id x) ->
  In r (snd (update_where (has_id j) f db)) -> id r = j -> exists r0, In r0 db /\ r = f r0.
Proof.
  intros Hf Hr Hid. rewrite update_where_map in Hr.
  apply in_map_iff in Hr as [r0 [Hr0 Hin]].
  destruct (has_id j r0) eqn:Hh.
  - exists r0. split; [exact Hin | symmetry; exact Hr0].
  - subst r. apply has_id_true in Hid. congruence.
Qed.

Lemma fail_settles (j err : string) (now : Z) (db : table) (r : job_row) :
  In r (fail j err now db) -> id r = j -> (exists r0, In r0 db /\ id r0 = j) ->
  status r = Pending \/ status r = Failed.
Proof.
  intros Hr Hid [r0 [Hin0 Hid0]]. unfold fail in Hr.
  destruct (lookup j db) as [row|] eqn:Hl.
  - destruct (attempts row <? max_attempts row)%nat;
      apply in_update_has_id in Hr as [x [_ ->]]; auto.
  - pose proof (lookup_none_all j db Hl r0 Hin0) as H.
    rewrite (proj2 (has_id_true j r0) Hid0) in H. discriminate.
Qed.

(** One pass of the worker loop that claims a job never leaves it in
    [processing]: afterwards every row with the job's id is [completed]
    (the validator ran and returned), back to [pending] (a failure with
    attempts left) or [failed]. *)
Theorem worker_iteration_settles_claimed_job (validator : bool) (init : call_result unit)
    (validate : string -> call_result pydict) (now : Z) (db : table) (job : job_row)
    (Hdq : fst (dequeue now db) = Some job) :
  forall r, In r (snd (worker_iteration validator init validate now db)) -> id r = id job ->
    status r = Completed \/ status r = Pending \/ status r = Failed.
Proof.
  intros r Hr Hid. unfold worker_iteration in Hr.
  unfold dequeue, dequeue_select in Hdq, Hr.
  destruct (oldest_pending db) as [row|] eqn:Ho; [|discriminate].
  simpl in Hdq, Hr. injection Hdq as <-. simpl in Hid.
  apply oldest_pending_some in Ho as [Hin _].
  assert (Hex : exists r0, In r0 (snd (update_where (has_id (id row)) (claim_row now) db))
                           /\ id r0 = id row).
  { exists (claim_row now row). split; [|reflexivity].
    rewrite update_where_map. apply in_map_iff. exists row. rewrite has_id_refl. auto. }
  destruct (if validator then Returns tt else init) as [_|ty msg].
  - destruct (process_job (claimed_job row) validate) as [res|ty err]; simpl in Hr.
    + unfold complete in Hr. apply in_update_has_id in Hr as [x [_ ->]]; [|reflexivity|exact Hid].
      left. reflexivity.
    + right. apply (fail_settles _ _ _ _ r Hr Hid Hex).
  - simpl in Hr. right. apply (fail_settles _ _ _ _ r Hr Hid Hex).
Qed.

Definition one_pending_job_db : table :=
  run_ops 3 [OpEnqueue "job-1" "/app/tmp/a.jpg" None 100].

Lemma worker_iteration_settles_claimed_job_witness :
  exists job, fst (dequeue 110 one_pending_job_db) = Some job /\
  forall r, In r (snd (worker_iteration true (Returns tt)
                         (fun _ => Raises "ConnectionError" "Read timed out") 110
                         one_pending_job_db)) -> id r = id job ->
    status r = Completed \/ status r = Pending \/ status r = Failed.
Proof.
  eexists. split.
  - vm_compute. reflexivity.
  - apply worker_iteration_settles_claimed_job. vm_compute. reflexivity.
Defined.

Lemma fail_one_row (j err : string) (now : Z) (r : job_row) :
  id r = j ->
  fail j err now [r] =
    [if (attempts r <? max_attempts r)%nat then requeue_row err now r else fail_row err now r].
Proof.
  intros Hid. pose proof (proj2 (has_id_true j r) Hid) as Hh.
  unfold fail, lookup. cbn [find]. rewrite Hh.
  destruct (attempts r <? max_attempts r)%nat; cbn [update_where snd]; rewrite Hh;
    reflexivity.
Qed.

Lemma worker_iteration_one_pending (validator : bool) (init : call_result unit)
    (validate : string -> call_result pydict) (now : Z) (r : job_row) :
  (validator = false /\ (exists ty msg, init = Raises ty msg)) \/
  (forall p, exists ty msg, validate p = Raises ty msg) ->
  is_pending r = true ->
  exists v' r', worker_iteration validator init validate now [r] = (v', [r']) /\
    (validator = false /\ (exists ty msg, init = Raises ty msg) -> v' = false) /\
    id r' = id r /\ attempts r' = S (attempts r) /\ max_attempts r' = max_attempts r /\
    status r' = (if (S (attempts r) <? max_attempts r)%nat then Pending else Failed).
Proof.
  intros Hf Hp. unfold worker_iteration, dequeue, dequeue_select. cbn [oldest_pending]. rewrite Hp.
  unfold dequeue_update. cbn [update_where snd]. rewrite has_id_refl. cbn [snd id claimed_job].
  assert (Hc : forall err, exists r', fail (id r) err now [claim_row now r] = [r'] /\
     id r' = id r /\ attempts r' = S (attempts r) /\ max_attempts r' = max_attempts r /\
     status r' = (if (S (attempts r) <? max_attempts r)%nat then Pending else Failed)).
  { intros err. rewrite fail_one_row by reflexivity. cbn [id attempts max_attempts claim_row].
    eexists. split; [reflexivity|].
    destruct (S (attempts r) <? max_attempts r)%nat; simpl; auto. }
  assert (Hsel : exists c, (if validator then Returns tt else init) = c) by eauto.
  destruct Hsel as [c Hi]. rewrite Hi. destruct c as [u|ty msg].
  - assert (Hv : forall p, exists ty msg, validate p = Raises ty msg).
    { destruct Hf as [[Hvf [ty [msg Hinit]]]|Hv]; [|exact Hv].
      rewrite Hvf, Hinit in Hi. discriminate. }
    assert (Hn : validator = false /\ (exists ty msg, init = Raises ty msg) -> False).
    { intros [Hvf [ty [msg Hinit]]]. rewrite Hvf, Hinit in Hi. discriminate. }
    unfold process_job. destruct (Hv (image_path (claimed_job r))) as [ty [err Herr]].
    rewrite Herr. destruct (Hc err) as [r' [H1 H2]]. rewrite H1.
    do 2 eexists. split; [reflexivity|]. split; [intros Hx; contradiction (Hn Hx)|]. exact H2.
  - destruct (Hc ("Failed to initialise LabelValidator: " ++ msg)%string) as [r' [H1 H2]].
    rewrite H1. do 2 eexists. split; [reflexivity|]. split; [reflexivity|]. exact H2.
Qed.

Lemma worker_iteration_one_settled (validator : bool) (init : call_result unit)
    (validate : string -> call_result pydict) (now : Z) (r : job_row) :
  is_pending r = false -> worker_iteration validator init validate now [r] = (validator, [r]).
Proof. intros Hp. unfold worker_iteration, dequeue, dequeue_select. simpl. rewrite Hp. reflexivity. Qed.

Lemma run_worker_one_row (m : nat) (init : call_result unit)
    (validate : string -> call_result pydict) (now : Z) :
  forall n validator r,
    (validator = false /\ (exists ty msg, init = Raises ty msg)) \/
    (forall p, exists ty msg, validate p = Raises ty msg) ->
    max_attempts r = m -> (attempts r <= m)%nat ->
    status r = (if (attempts r <? m)%nat then Pending else Failed) ->
    exists v' r', run_worker_iterations n validator init validate now [r] = (v', [r']) /\
      id r' = id r /\ attempts r' = Nat.min (attempts r + n) m /\
      status r' = (if (attempts r' <? m)%nat then Pending else Failed).
Proof.
  intros n. induction n as [|n IH]; intros validator r Hf Hm Hle Hs.
  - simpl. exists validator, r. split; [reflexivity|]. split; [reflexivity|]. split; [lia | exact Hs].
  - simpl. destruct (attempts r <? m)%nat eqn:Hlt.
    + assert (Hp : is_pending r = true) by (unfold is_pending; rewrite Hs; reflexivity).
      destruct (worker_iteration_one_pending validator init validate now r Hf Hp)
        as [v1 [r1 [Hw [Hv1 [Hi [Ha [Hm1 Hs1]]]]]]].
      rewrite Hw. apply Nat.ltb_lt in Hlt.
      destruct (IH v1 r1) as [v' [r' [Hrun [Hi' [Ha' Hs']]]]].
      * destruct Hf as [Hf|Hf]; [left | right; exact Hf].
        split; [apply Hv1; exact Hf | apply Hf].
      * congruence.
      * lia.
      * rewrite Ha, Hs1, Hm. reflexivity.
      * exists v', r'. split; [exact Hrun|]. split; [congruence|]. split; [|exact Hs'].
        rewrite Ha', Ha. lia.
    + assert (Hp : is_pending r = false) by (unfold is_pending; rewrite Hs; reflexivity).
      rewrite (worker_iteration_one_settled validator init validate now r Hp).
      apply Nat.ltb_ge in Hlt.
      destruct (IH validator r Hf Hm Hle) as [v' [r' [Hrun [Hi' [Ha' Hs']]]]].
      * rewrite (proj2 (Nat.ltb_ge _ _) Hlt). exact Hs.
      * exists v', r'. split; [exact Hrun|]. split; [exact Hi'|]. split; [rewrite Ha'; lia | exact Hs'].
Qed.

(** With a single queued job that the worker can never process (no
    validator yet and building one raises, or validating its image always
    raises), [n] passes of the worker loop leave the job with
    [min n max_attempts] attempts: it goes back to [pending] after each
    failure until its attempts reach [max_attempts], where it is marked
    [failed] and is not picked up again. *)
Theorem worker_retry_budget (m : nat) (Hm : (1 <= m)%nat) (j img : string)
    (gt : option pydict) (t0 now : Z) (validator : bool) (init : call_result unit)
    (validate : string -> call_result pydict)
    (Hv : (validator = false /\ (exists ty msg, init = Raises ty msg)) \/
          (forall p, exists ty msg, validate p = Raises ty msg)) (n : nat) :
  exists v' r', run_worker_iterations n validator init validate now
                  (run_ops m [OpEnqueue j img gt t0]) = (v', [r']) /\
    id r' = j /\ attempts r' = Nat.min n m /\
    status r' = (if (n <? m)%nat then Pending else Failed).
Proof.
  set (r0 := {| id := j; status := Pending; attempts := 0; max_attempts := m;
                image_path := img; ground_truth := if gt_truthy gt then gt else None;
                result := None; error := None;
                created_at := t0; updated_at := t0; completed_at := None |}).
  assert (Hdb : run_ops m [OpEnqueue j img gt t0] = [r0]) by reflexivity.
  rewrite Hdb.
  destruct (run_worker_one_row m init validate now n validator r0 Hv)
    as [v' [r' [Hrun [Hi [Ha Hs]]]]].
  - reflexivity.
  - simpl. lia.
  - simpl. destruct m; [lia | reflexivity].
  - exists v', r'. split; [exact Hrun|]. split; [exact Hi|].
    split; [exact Ha|]. rewrite Hs, Ha. simpl.
    destruct (Nat.ltb_spec n m) as [Hlt|Hge].
    + rewrite Nat.min_l by lia. apply Nat.ltb_lt in Hlt. rewrite Hlt. reflexivity.
    + rewrite Nat.min_r by lia. rewrite Nat.ltb_irrefl. reflexivity.
Qed.

Lemma worker_retry_budget_witness :
  (1 <= 3)%nat /\
  (false = false /\ (exists ty msg, (Raises "TypeError" "unexpected keyword argument 'timeout'"
                                      : call_result unit) = Raises ty msg)) /\
  exists v' r', run_worker_iterations 5 false (Raises "TypeError" "unexpected keyword argument 'timeout'")
                  (fun _ => Returns []) 200
                  (run_ops 3 [OpEnqueue "job-1" "/app/tmp/a.jpg" None 100]) = (v', [r']) /\
    id r' = "job-1"%string /\ attempts r' = Nat.min 5 3 /\
    status r' = (if (5 <? 3)%nat then Pending else Failed).
Proof.
  assert (Hm : (1 <= 3)%nat) by lia.
  assert (Hv : false = false /\ (exists ty msg, (Raises "TypeError" "unexpected keyword argument 'timeout'"
                                      : call_result unit) = Raises ty msg))
    by (split; [reflexivity | do 2 eexists; reflexivity]).
  split; [exact Hm|]. split; [exact Hv|].
  exact (worker_retry_budget 3 Hm "job-1" "/app/tmp/a.jpg" None 100 200 false
           (Raises "TypeError" "unexpected keyword argument 'timeout'") (fun _ => Returns [])
           (or_introl Hv) 5).
Defined.

(** ** The job files of [JobManager] *)

Lemma store_find_cons (k : string) (e : string * option batch_record) (st : jm_store) :
  store_find k (e :: st) = if String.eqb (fst e) k then Some (snd e) else store_find k st.
Proof. unfold store_find. destruct e as [k' c]. simpl. destruct (String.eqb k' k); reflexivity. Qed.

Lemma store_find_map_other (k j : string) (b : batch_record) (st : jm_store) :
  k <> j ->
  store_find k (map (fun e => if String.eqb (fst e) j then (j, Some b) else e) st)
  = store_find k st.
Proof.
  intros Hne. induction st as [|e st IH]; [reflexivity|]. simpl map. rewrite !store_find_cons.
  destruct (String.eqb_spec (fst e) j) as [Hej|Hej]; simpl.
  - rewrite (proj2 (String.eqb_neq j k)) by congruence.
    rewrite (proj2 (String.eqb_neq (fst e) k)) by congruence. exact IH.
  - destruct (String.eqb (fst e) k); [reflexivity | exact IH].
Qed.

Lemma store_find_map_same (j : string) (b : batch_record) (st : jm_store) :
  existsb (fun e => String.eqb (fst e) j) st = true ->
  store_find j (map (fun e => if String.eqb (fst e) j then (j, Some b) else e) st)
  = Some (Some b).
Proof.
  induction st as [|e st IH]; simpl; [discriminate|]. rewrite store_find_cons.
  destruct (String.eqb (fst e) j) eqn:Hej; simpl.
  - rewrite String.eqb_refl. reflexivity.
  - rewrite Hej. exact IH.
Qed.

Lemma store_find_absent (j : string) (st : jm_store) :
  existsb (fun e => String.eqb (fst e) j) st = false -> store_find j st = None.
Proof.
  induction st as [|e st IH]; simpl; [reflexivity|]. rewrite store_find_cons.
  destruct (String.eqb (fst e) j); [discriminate | exact IH].
Qed.

Lemma store_find_app_one (k : string) (st : jm_store) (x : string * option batch_record) :
  store_find k (st ++ [x]) =
  match store_find k st with
  | None => if String.eqb (fst x) k then Some (snd x) else None
  | s => s
  end.
Proof.
  induction st as [|e st IH]; simpl.
  - rewrite store_find_cons. reflexivity.
  - rewrite !store_find_cons. destruct (String.eqb (fst e) k); [reflexivity | exact IH].
Qed.

Lemma store_find_write (k j : string) (b : batch_record) (st : jm_store) :
  store_find k (store_write j b st) = if String.eqb k j then Some (Some b) else store_find k st.
Proof.
  unfold store_write. destruct (existsb (fun e => String.eqb (fst e) j) st) eqn:Hex.
  - destruct (String.eqb_spec k j) as [->|Hne].
    + apply store_find_map_same. exact Hex.
    + apply store_find_map_other. exact Hne.
  - rewrite store_find_app_one. simpl. destruct (String.eqb_spec k j) as [->|Hne].
    + rewrite (store_find_absent j st Hex), String.eqb_refl. reflexivity.
    + destruct (store_find k st); [reflexivity|].
      rewrite (proj2 (String.eqb_neq j k)) by congruence. reflexivity.
Qed.

Lemma store_find_remove (k j : string) (st : jm_store) :
  store_find k (store_remove j st) = if String.eqb k j then None else store_find k st.
Proof.
  unfold store_remove. induction st as [|e st IH]; simpl.
  - destruct (String.eqb k j); reflexivity.
  - destruct (String.eqb_spec (fst e) j) as [Hej|Hej]; simpl.
    + rewrite IH, store_find_cons. destruct (String.eqb_spec k j) as [->|Hne]; [reflexivity|].
      rewrite (proj2 (String.eqb_neq (fst e) k)) by congruence. reflexivity.
    + rewrite !store_find_cons, IH. destruct (String.eqb_spec (fst e) k) as [Hek|Hek].
      * rewrite (proj2 (String.eqb_neq k j)) by congruence. reflexivity.
      * reflexivity.
Qed.

Lemma get_job_write (k j : string) (b : batch_record) (st : jm_store) :
  get_job k (store_write j b st) = if String.eqb k j then Some b else get_job k st.
Proof. unfold get_job. rewrite store_find_write. destruct (String.eqb k j); reflexivity. Qed.

Lemma read_modify_write_readable (f : batch_record -> batch_record) (j : string)
    (st : jm_store) (b : batch_record) :
  store_find j st = Some (Some b) ->
  read_modify_write f j st = (true, store_write j (f b) st).
Proof. intros H. unfold read_modify_write. rewrite H. reflexivity. Qed.

(** [create_job] followed by [get_job] on the new id gives back a
    [pending] job with no results and nothing processed, created and
    updated at the same instant; the files of the other jobs are left as
    they were. *)
Theorem create_job_get_job (j : string) (total now : Z) (st : jm_store) :
  fst (create_job j total now st) = j /\
  get_job j (snd (create_job j total now st)) =
    Some {| br_job_id := j; br_status := Pending; br_created_at := now;
            br_updated_at := now; br_total_images := total;
            br_processed_images := 0; br_results := []; br_completed_at := None;
            br_summary := None; br_error := None |} /\
  (forall k, k <> j -> store_find k (snd (create_job j total now st)) = store_find k st).
Proof.
  split; [reflexivity|]. split.
  - simpl. rewrite get_job_write, String.eqb_refl. reflexivity.
  - intros k Hk. simpl. rewrite store_find_write.
    rewrite (proj2 (String.eqb_neq k j) Hk). reflexivity.
Qed.

(** A job whose file is missing or cannot be read: [get_job] gives
    [None], [update_job] and [append_result] return [False] and write
    nothing; [delete_job] returns [False] for a missing file but removes
    an unreadable one and returns [True]. *)
Theorem job_file_missing_or_unreadable (j : string) (st : jm_store)
    (H : store_find j st = None \/ store_find j st = Some None) :
  get_job j st = None /\
  (forall status processed summary error now,
     update_job j status processed summary error now st = (false, st)) /\
  (forall result now, append_result j result now st = (false, st)) /\
  (store_find j st = None -> delete_job j st = (false, st)) /\
  (store_find j st = Some None ->
     exists st', delete_job j st = (true, st') /\ store_find j st' = None).
Proof.
  unfold get_job, update_job, append_result, read_modify_write, delete_job.
  destruct H as [H|H]; rewrite H; repeat split; try reflexivity; try discriminate.
  intros _. eexists. split; [reflexivity|]. rewrite store_find_remove, String.eqb_refl. reflexivity.
Qed.

(** [update_job] on a readable job: it returns [True] and the job read
    back has [updated_at = now], the new status if one is given, and a
    [completed_at] set to [now] exactly when the new status is
    [completed], [failed] or [cancelled] (otherwise the old one is kept);
    its results are kept, and no other job file changes. *)
Theorem update_job_fields (j : string) (status : option job_status) (processed : option Z)
    (summary : option jdict) (error : option string) (now : Z) (st : jm_store)
    (b : batch_record) (H : store_find j st = Some (Some b)) :
  exists st' b',
    update_job j status processed summary error now st = (true, st') /\
    get_job j st' = Some b' /\
    br_updated_at b' = now /\
    br_status b' = match status with Some s => s | None => br_status b end /\
    br_completed_at b' = match status with
                         | Some s => if job_status_is_terminal s then Some now
                                     else br_completed_at b
                         | None => br_completed_at b
                         end /\
    br_results b' = br_results b /\
    br_created_at b' = br_created_at b /\
    (forall k, k <> j -> store_find k st' = store_find k st).
Proof.
  unfold update_job. rewrite (read_modify_write_readable _ _ _ b H).
  do 2 eexists. split; [reflexivity|]. split.
  - rewrite get_job_write, String.eqb_refl. reflexivity.
  - simpl. repeat split; try reflexivity.
    intros k Hk. rewrite store_find_write, (proj2 (String.eqb_neq k j) Hk). reflexivity.
Qed.

Lemma append_results_fold (j : string) (rs : list jdict) (now : Z) (st : jm_store)
    (b : batch_record) :
  store_find j st = Some (Some b) ->
  exists b', store_find j (fold_left (fun st r => snd (append_result j r now st)) rs st)
             = Some (Some b') /\
    br_results b' = (br_results b ++ rs)%list /\
    (rs <> [] -> br_processed_images b' = Z.of_nat (length (br_results b ++ rs))) /\
    (rs = [] -> b' = b) /\
    br_status b' = br_status b /\ br_completed_at b' = br_completed_at b /\
    br_summary b' = br_summary b /\ br_error b' = br_error b.
Proof.
  revert st b. induction rs as [|r rs IH]; intros st b H.
  - exists b. simpl. rewrite app_nil_r. repeat split; auto. congruence.
  - simpl. unfold append_result. rewrite (read_modify_write_readable _ _ _ b H). simpl.
    destruct (IH (store_write j (append_record r now b) st) (append_record r now b))
      as [b' [Hf [Hr [Hp [He [Hs [Hc [Hsu Her]]]]]]]].
    { rewrite store_find_write, String.eqb_refl. reflexivity. }
    exists b'. split; [exact Hf|]. simpl in Hr. rewrite <- app_assoc in Hr. simpl in Hr.
    split; [exact Hr|]. split; [|split; [discriminate|]].
    + intros _. destruct rs as [|r' rs'].
      * rewrite (He eq_refl). reflexivity.
      * rewrite Hp by discriminate. simpl. rewrite !length_app. simpl. f_equal. lia.
    + simpl in Hs, Hc, Hsu, Her. auto.
Qed.

(** Appending the results [rs] one by one to a readable job ([append_result]
    as [process_batch_job] calls it): each call returns [True], the job's
    results become the old ones followed by [rs] in order, and
    [processed_images] becomes the length of that list; status,
    [completed_at], summary and error are untouched. *)
Theorem append_results_accumulate (j : string) (rs : list jdict) (now : Z) (st : jm_store)
    (b : batch_record) (H : store_find j st = Some (Some b)) (Hne : rs <> []) :
  forallb (fun x => x) (fst (fold_left (fun acc r =>
     let '(oks, st) := acc in
     let '(ok, st') := append_result j r now st in ((oks ++ [ok])%list, st')) rs ([], st))) = true /\
  exists b', get_job j (fold_left (fun st r => snd (append_result j r now st)) rs st) = Some b' /\
    br_results b' = (br_results b ++ rs)%list /\
    br_processed_images b' = Z.of_nat (length (br_results b ++ rs)) /\
    br_status b' = br_status b /\ br_completed_at b' = br_completed_at b /\
    br_summary b' = br_summary b /\ br_error b' = br_error b.
Proof.
  split.
  - assert (Hg : forall oks st b, forallb (fun x => x) oks = true ->
              store_find j st = Some (Some b) ->
              forallb (fun x => x) (fst (fold_left (fun acc r =>
                let '(oks, st) := acc in
                let '(ok, st') := append_result j r now st in ((oks ++ [ok])%list, st'))
                rs (oks, st))) = true).
    { clear H Hne b st. induction rs as [|r rs IH]; intros oks st b Hoks Hst; [exact Hoks|].
      simpl. unfold append_result. rewrite (read_modify_write_readable _ _ _ b Hst).
      apply (IH _ _ (append_record r now b)).
      - rewrite forallb_app, Hoks. reflexivity.
      - rewrite store_find_write, String.eqb_refl. reflexivity. }
    apply (Hg [] st b eq_refl H).
  - destruct (append_results_fold j rs now st b H) as [b' [Hf [Hr [Hp [_ Hrest]]]]].
    exists b'. unfold get_job. rewrite Hf. split; [reflexivity|].
    split; [exact Hr|]. split; [apply Hp; exact Hne | exact Hrest].
Qed.

(** [update_job] and [append_result] read the job file and write it back
    as two separate steps.  When [append_result] (of [process_batch_job])
    reads the file, then the [update_job(..., status=CANCELLED)] of the
    DELETE endpoint reads and writes it, then [append_result] writes, both
    calls return [True], yet the job read back is the old job with the
    result appended: the cancellation is lost. *)
Theorem cancel_lost_to_concurrent_append (j : string) (result : jdict) (t1 t2 : Z)
    (st : jm_store) (b : batch_record) (H : store_find j st = Some (Some b)) :
  exists st',
    run_rmw_schedule (update_record (Some Cancelled) None None None t2)
                     (append_record result t1) j [true; false; false; true]
                     RmwStart RmwStart st = (RmwReturned true, RmwReturned true, st') /\
    get_job j st' = Some (append_record result t1 b) /\
    br_status (append_record result t1 b) = br_status b.
Proof.
  simpl. rewrite H. simpl. eexists. split; [reflexivity|]. split; [|reflexivity].
  rewrite get_job_write, String.eqb_refl. reflexivity.
Qed.

(** [DELETE /verify/batch/{job_id}]: for a readable job it answers with the
    success message and the job's file is gone, the other files untouched;
    when [get_job] gives [None] (file missing or unreadable) it answers
    404 and changes nothing, so an unreadable job file cannot be deleted
    through the API. *)
Theorem delete_batch_job_outcome (j : string) (now : Z) (st : jm_store) :
  (forall b, store_find j st = Some (Some b) ->
     exists st', delete_batch_job j now st
                 = (Returns ("Job " ++ j ++ " deleted successfully")%string, st') /\
       store_find j st' = None /\
       (forall k, k <> j -> store_find k st' = store_find k st)) /\
  (get_job j st = None ->
     delete_batch_job j now st = (Raises "HTTPException" ("404: Job " ++ j ++ " not found")%string, st)).
Proof.
  split.
  - intros b H. unfold delete_batch_job, get_job. rewrite H.
    assert (Hd : forall st1, (forall k, store_find k st1 = if String.eqb k j then Some (Some (update_record (Some Cancelled) None None None now b)) else store_find k st) \/
                             st1 = st ->
        exists st', (let '(ok, st2) := delete_job j st1 in
                     if ok then (Returns ("Job " ++ j ++ " deleted successfully")%string, st2)
                     else (Raises "HTTPException" ("500: Failed to delete job " ++ j)%string, st2))
                    = (Returns ("Job " ++ j ++ " deleted successfully")%string, st') /\
          store_find j st' = None /\ (forall k, k <> j -> store_find k st' = store_find k st)).
    { intros st1 Hst1. unfold delete_job.
      assert (Hj : store_find j st1 <> None).
      { destruct Hst1 as [Hst1| ->]; [rewrite Hst1, String.eqb_refl|rewrite H]; discriminate. }
      destruct (store_find j st1) as [c|] eqn:Hc; [|congruence].
      eexists. split; [reflexivity|]. split.
      - rewrite store_find_remove, String.eqb_refl. reflexivity.
      - intros k Hk. rewrite store_find_remove, (proj2 (String.eqb_neq k j) Hk).
        destruct Hst1 as [Hst1| ->]; [|reflexivity].
        rewrite Hst1, (proj2 (String.eqb_neq k j) Hk). reflexivity. }
    destruct (br_status b); apply Hd; try (right; reflexivity);
      left; intros k; unfold update_job; rewrite (read_modify_write_readable _ _ _ b H);
      simpl; apply store_find_write.
  - intros H. unfold delete_batch_job. rewrite H. reflexivity.
Qed.

(** ** [process_batch_job] *)

Lemma append_result_readable (j : string) (r : jdict) (now : Z) (st : jm_store) (b : batch_record) :
  store_find j st = Some (Some b) ->
  store_find j (snd (append_result j r now st)) = Some (Some (append_record r now b)).
Proof.
  intros H. unfold append_result. rewrite (read_modify_write_readable _ _ _ b H). simpl.
  rewrite store_find_write, String.eqb_refl. reflexivity.
Qed.

Lemma append_result_unreadable (j : string) (r : jdict) (now : Z) (st : jm_store) :
  store_find j st = None \/ store_find j st = Some None -> append_result j r now st = (false, st).
Proof. unfold append_result, read_modify_write. intros [H|H]; rewrite H; reflexivity. Qed.

Lemma update_job_unreadable (j : string) s p sm e (now : Z) (st : jm_store) :
  store_find j st = None \/ store_find j st = Some None -> update_job j s p sm e now st = (false, st).
Proof. unfold update_job, read_modify_write. intros [H|H]; rewrite H; reflexivity. Qed.

Lemma batch_images_unreadable (validate : string -> call_result jdict) (j : string)
    (images : list string) (now total : Z) (st : jm_store) :
  store_find j st = None \/ store_find j st = Some None ->
  snd (batch_images validate j images now total st) = st.
Proof.
  intros H. revert total. induction images as [|p images IH]; intros total; [reflexivity|].
  simpl. destruct (validate p) as [res|ty msg].
  - rewrite (append_result_unreadable j _ now st H). simpl.
    destruct (add_processing_time total (jdict_set res "image_path" (JStr (path_name p))));
      [destruct (jdict_get _ "status")|];
      try rewrite (append_result_unreadable j _ now st H); apply IH.
  - rewrite (append_result_unreadable j _ now st H). apply IH.
Qed.

(** The images whose validation returns a result with no numeric
    [processing_time_seconds], or with one but no [status]: each gets a
    second, error, entry. *)
Definition error_entry_added (validate : string -> call_result jdict) (p : string) : bool :=
  match validate p with
  | Returns res =>
      let res' := jdict_set res "image_path" (JStr (path_name p)) in
      match add_processing_time 0 res' with
      | Raises _ _ => true
      | Returns _ => match jdict_get res' "status" with Some _ => false | None => true end
      end
  | Raises _ _ => false
  end.

Lemma add_processing_time_total (t1 t2 : Z) (res : jdict) :
  match add_processing_time t1 res, add_processing_time t2 res with
  | Returns _, Returns _ | Raises _ _, Raises _ _ => True
  | _, _ => False
  end.
Proof. unfold add_processing_time. destruct (jdict_get res "processing_time_seconds") as [[]|]; exact I. Qed.

Lemma batch_images_readable (validate : string -> call_result jdict) (j : string)
    (images : list string) (now : Z) :
  forall total st b, store_find j st = Some (Some b) ->
  exists b', store_find j (snd (batch_images validate j images now total st)) = Some (Some b') /\
    length (br_results b') =
      (length (br_results b) + length images + length (filter (error_entry_added validate) images))%nat /\
    (images <> [] \/ br_processed_images b = Z.of_nat (length (br_results b)) ->
     br_processed_images b' = Z.of_nat (length (br_results b'))) /\
    br_status b' = br_status b /\ br_completed_at b' = br_completed_at b /\
    br_summary b' = br_summary b /\ br_error b' = br_error b.
Proof.
  induction images as [|p images IH]; intros total st b H.
  - exists b. simpl. split; [exact H|]. split; [lia|].
    split; [intros [Hn|Hn]; [congruence|exact Hn]|]. auto.
  - simpl. unfold error_entry_added at 1. cbv zeta.
    destruct (validate p) as [res|ty msg].
    + pose proof (add_processing_time_total total 0 (jdict_set res "image_path" (JStr (path_name p))))
        as Hsame.
      pose proof (append_result_readable j (jdict_set res "image_path" (JStr (path_name p))) now st b H)
        as H1.
      destruct (add_processing_time total (jdict_set res "image_path" (JStr (path_name p))))
        as [t|ty msg];
      destruct (add_processing_time 0 (jdict_set res "image_path" (JStr (path_name p))))
        as [t'|ty' msg']; try contradiction.
      * destruct (jdict_get (jdict_set res "image_path" (JStr (path_name p))) "status").
        -- destruct (IH t _ _ H1) as [b' [Hf [Hl [Hp Hrest]]]].
           exists b'. split; [exact Hf|]. split; [|split; [|exact Hrest]].
           ++ rewrite Hl. simpl. rewrite length_app. simpl. lia.
           ++ intros _. apply Hp. right. reflexivity.
        -- pose proof (append_result_readable j (batch_error_result (path_name p) "'status'")
                         now _ _ H1) as H2.
           destruct (IH t _ _ H2) as [b' [Hf [Hl [Hp Hrest]]]].
           exists b'. split; [exact Hf|]. split; [|split; [|exact Hrest]].
           ++ rewrite Hl. simpl. rewrite !length_app. simpl. lia.
           ++ intros _. apply Hp. right. reflexivity.
      * pose proof (append_result_readable j (batch_error_result (path_name p) msg) now _ _ H1) as H2.
        destruct (IH total _ _ H2) as [b' [Hf [Hl [Hp Hrest]]]].
        exists b'. split; [exact Hf|]. split; [|split; [|exact Hrest]].
        -- rewrite Hl. simpl. rewrite !length_app. simpl. lia.
        -- intros _. apply Hp. right. reflexivity.
    + pose proof (append_result_readable j (batch_error_result (path_name p) msg) now st b H) as H1.
      destruct (IH total _ _ H1) as [b' [Hf [Hl [Hp Hrest]]]].
      exists b'. split; [exact Hf|]. split; [|split; [|exact Hrest]].
      * rewrite Hl. simpl. rewrite length_app. simpl. lia.
      * intros _. apply Hp. right. reflexivity.
Qed.

(** [process_batch_job] on a job whose file is missing or unreadable when
    the batch starts changes no file. *)
Theorem process_batch_job_missing_file (init : call_result unit)
    (validate : string -> call_result jdict) (j : string) (images : list string)
    (now : Z) (st : jm_store)
    (H : store_find j st = None \/ store_find j st = Some None) :
  process_batch_job init validate j images now st = st.
Proof.
  unfold process_batch_job. rewrite update_job_unreadable by exact H. simpl.
  destruct init as [u|ty msg].
  - destruct (batch_images validate j images now 0 st) as [total st2] eqn:Hb.
    assert (st2 = st) as ->.
    { pose proof (batch_images_unreadable validate j images now 0 st H) as E.
      rewrite Hb in E. exact E. }
    unfold get_job. destruct H as [H|H]; rewrite H; reflexivity.
  - destruct (is_runtime_error ty); rewrite update_job_unreadable by exact H; reflexivity.
Qed.

(** [process_batch_job] on a readable job whose validator can be built:
    the job ends [completed], with [completed_at = now]; one result is
    appended per image, plus a second, error, result for each image whose
    result has no numeric [processing_time_seconds], or has one but no
    [status] (the [KeyError] of the debug log line), so [processed_images]
    can exceed [total_images]; the summary counts every result of the job. *)
Theorem process_batch_job_completes (validate : string -> call_result jdict) (j : string)
    (images : list string) (now : Z) (st : jm_store) (b : batch_record)
    (H : store_find j st = Some (Some b)) :
  exists b' total,
    get_job j (process_batch_job (Returns tt) validate j images now st) = Some b' /\
    br_status b' = Completed /\ br_completed_at b' = Some now /\
    length (br_results b') =
      (length (br_results b) + length images + length (filter (error_entry_added validate) images))%nat /\
    (images <> [] -> br_processed_images b' = Z.of_nat (length (br_results b'))) /\
    br_summary b' = Some (batch_summary (br_results b') total).
Proof.
  unfold process_batch_job, update_job. rewrite (read_modify_write_readable _ _ _ b H). simpl.
  set (b1 := update_record (Some Processing) None None None now b).
  assert (H1 : store_find j (store_write j b1 st) = Some (Some b1))
    by (rewrite store_find_write, String.eqb_refl; reflexivity).
  destruct (batch_images validate j images now 0 (store_write j b1 st)) as [total st2] eqn:Hb.
  destruct (batch_images_readable validate j images now 0 _ _ H1) as [b2 [H2 [Hl [Hp _]]]].
  rewrite Hb in H2. simpl in H2.
  unfold get_job at 2. rewrite H2.
  rewrite (read_modify_write_readable _ _ _ b2 H2). simpl.
  eexists. exists total. rewrite get_job_write, String.eqb_refl.
  split; [reflexivity|]. simpl. split; [reflexivity|]. split; [reflexivity|].
  split; [exact Hl|]. split; [|reflexivity].
  intros Hne. apply Hp. left. exact Hne.
Qed.

(** [process_batch_job] on a readable job when building the validator
    raises: the job ends [failed] with [completed_at = now] and an error
    that is prefixed with "Ollama backend unavailable: " for a
    [RuntimeError] and is the bare message otherwise; no result is
    appended. *)
Theorem process_batch_job_init_failure (ty msg : string)
    (validate : string -> call_result jdict) (j : string) (images : list string)
    (now : Z) (st : jm_store) (b : batch_record)
    (H : store_find j st = Some (Some b)) :
  exists b',
    get_job j (process_batch_job (Raises ty msg) validate j images now st) = Some b' /\
    br_status b' = Failed /\ br_completed_at b' = Some now /\
    br_error b' = Some (if is_runtime_error ty
                        then ("Ollama backend unavailable: " ++ msg)%string else msg) /\
    br_results b' = br_results b.
Proof.
  unfold process_batch_job, update_job. rewrite (read_modify_write_readable _ _ _ b H). simpl.
  set (b1 := update_record (Some Processing) None None None now b).
  assert (H1 : store_find j (store_write j b1 st) = Some (Some b1))
    by (rewrite store_find_write, String.eqb_refl; reflexivity).
  destruct (is_runtime_error ty);
    rewrite (read_modify_write_readable _ _ _ b1 H1); simpl;
    rewrite get_job_write, String.eqb_refl; eexists; split; try reflexivity;
    repeat split; reflexivity.
Qed.

(** ** The report of [validate_label] *)

Lemma determine_status_cases (viol : list jdict) (gt : option pydict) :
  (gt_truthy gt = false -> forallb is_structural_violation viol = true) ->
  (determine_status viol gt = "COMPLIANT"%string /\ viol = []) \/
  (determine_status viol gt = "NON_COMPLIANT"%string /\ viol <> []).
Proof.
  intros Hs. unfold determine_status. destruct viol as [|v vs]; [left; auto|].
  right. split; [|discriminate].
  destruct (gt_truthy gt) eqn:Hg; simpl; [reflexivity|].
  specialize (Hs eq_refl). simpl in Hs. apply andb_true_iff in Hs as [Hv _]. rewrite Hv. reflexivity.
Qed.

Lemma structural_violations_only (py_str : pyval -> string) (s : list validation_result) :
  forallb is_structural_violation (collect_violations py_str s []) = true.
Proof.
  unfold collect_violations. rewrite app_nil_r.
  induction (filter (fun r => negb (vr_is_valid r)) s) as [|r rs IH]; [reflexivity|].
  simpl. exact IH.
Qed.

(** A report [validate_label] builds from the OCR text has status
    [COMPLIANT] when its violation list is empty and [NON_COMPLIANT]
    otherwise: [PARTIAL_VALIDATION] is never returned, since without ground
    truth every violation is structural.  The validation level is
    [FULL_VALIDATION] exactly when the ground truth is a non-empty dict. *)
Theorem validate_label_steps_status (py_str : pyval -> string) (round3 : pyval -> pyval)
    (extract_fields : string -> call_result pydict)
    (validate_all_fields : pydict -> pydict -> call_result (list validation_result))
    (elapsed : pyval) (gt : option pydict) (raw_text : string) (rep : jdict)
    (H : validate_label_steps py_str round3 extract_fields validate_all_fields elapsed gt raw_text
         = Returns rep) :
  exists status level viols,
    jdict_get rep "status" = Some (JStr status) /\
    jdict_get rep "validation_level" = Some (JStr level) /\
    jdict_get rep "violations" = Some (JList viols) /\
    level = (if gt_truthy gt then "FULL_VALIDATION" else "STRUCTURAL_ONLY")%string /\
    ((status = "COMPLIANT"%string /\ viols = []) \/
     (status = "NON_COMPLIANT"%string /\ viols <> [])).
Proof.
  unfold validate_label_steps in H.
  destruct (extract_fields raw_text) as [ef|ty msg]; [|discriminate].
  destruct (validate_structural py_str ef) as [s|ty msg]; [|discriminate].
  assert (Hacc : exists level acc,
    (match gt with
     | Some d => if gt_truthy gt then
                   match validate_accuracy validate_all_fields ef d with
                   | Returns acc => Returns ("FULL_VALIDATION"%string, acc)
                   | Raises ty msg => Raises ty msg
                   end
                 else Returns ("STRUCTURAL_ONLY"%string, [])
     | None => Returns ("STRUCTURAL_ONLY"%string, [])
     end) = Returns (level, acc) /\
    level = (if gt_truthy gt then "FULL_VALIDATION" else "STRUCTURAL_ONLY")%string /\
    (gt_truthy gt = false -> acc = [])).
  { destruct gt as [d|]; [|do 2 eexists; split; [reflexivity|]; auto].
    destruct (gt_truthy (Some d)) eqn:Hg; [|do 2 eexists; split; [reflexivity|]; auto].
    destruct (validate_accuracy validate_all_fields ef d) as [acc|ty msg]; [|discriminate].
    do 2 eexists. split; [reflexivity|]. split; [reflexivity|]. discriminate. }
  destruct (match gt with
            | Some d => if gt_truthy gt then
                          match validate_accuracy validate_all_fields ef d with
                          | Returns acc => Returns ("FULL_VALIDATION"%string, acc)
                          | Raises ty msg => Raises ty msg
                          end
                        else Returns ("STRUCTURAL_ONLY"%string, [])
            | None => Returns ("STRUCTURAL_ONLY"%string, [])
            end) as [[level acc]|ty msg] eqn:Hm.
  2:{ exfalso. destruct Hacc as [? [? [Hr _]]]. discriminate. }
  destruct Hacc as [level' [acc' [Hr [Hl Ha]]]]. injection Hr as <- <-.
  destruct (format_extracted_fields ef) as [fields|ty msg]; [|discriminate].
  injection H as <-.
  pose proof (determine_status_cases (collect_violations py_str s acc) gt) as Hst.
  exists (determine_status (collect_violations py_str s acc) gt), level,
         (map JObj (collect_violations py_str s acc)).
  split; [reflexivity|]. split; [reflexivity|]. split; [reflexivity|]. split; [exact Hl|].
  destruct Hst as [[Hs Hv]|[Hs Hv]].
  - intros Hg. rewrite (Ha Hg). apply structural_violations_only.
  - left. rewrite Hv. auto.
  - right. split; [exact Hs|]. intros Hn. apply map_eq_nil in Hn. contradiction.
Qed.

Lemma validate_structural_shape (py_str : pyval -> string) (ef : pydict) (s : list validation_result) :
  validate_structural py_str ef = Returns s ->
  Z.of_nat (length (filter (fun r => negb (vr_is_valid r)) (firstn 4 s))) = missing_count ef.
Proof.
  unfold validate_structural. destruct (government_warning_of ef) as [w|ty msg]; [|discriminate].
  intros H. injection H as <-. simpl firstn.
  unfold missing_count, presence_check.
  destruct (py_truthy (get_or_none ef "brand_name"));
  destruct (is_none (get_or_none ef "alcohol_content_numeric"));
  destruct (py_truthy (get_or_none ef "net_contents"));
  destruct (py_truthy (get_or_none ef "bottler_info")); reflexivity.
Qed.

(** The warnings of a report [validate_label] builds: the no-ground-truth
    warning when the ground truth is missing or empty, then the OCR
    quality warning exactly when at least two of the first four structural
    checks (brand name, ABV, net contents, bottler) failed, quoting that
    number. *)
Theorem validate_label_steps_warnings (py_str : pyval -> string) (round3 : pyval -> pyval)
    (extract_fields : string -> call_result pydict)
    (validate_all_fields : pydict -> pydict -> call_result (list validation_result))
    (elapsed : pyval) (gt : option pydict) (raw_text : string) (rep : jdict)
    (ef : pydict) (s : list validation_result)
    (Hef : extract_fields raw_text = Returns ef)
    (Hs : validate_structural py_str ef = Returns s)
    (H : validate_label_steps py_str round3 extract_fields validate_all_fields elapsed gt raw_text
         = Returns rep) :
  let k := Z.of_nat (length (filter (fun r => negb (vr_is_valid r)) (firstn 4 s))) in
  jdict_get rep "warnings" =
    Some (JList (map JStr
      ((if gt_truthy gt then [] else [no_ground_truth_warning]) ++
       (if (2 <=? k)%Z then [ocr_quality_warning k] else [])))).
Proof.
  intros k. unfold k. rewrite (validate_structural_shape py_str ef s Hs).
  unfold validate_label_steps in H. rewrite Hef, Hs in H.
  destruct (match gt with
            | Some d => if gt_truthy gt then
                          match validate_accuracy validate_all_fields ef d with
                          | Returns acc => Returns ("FULL_VALIDATION"%string, acc)
                          | Raises ty msg => Raises ty msg
                          end
                        else Returns ("STRUCTURAL_ONLY"%string, [])
            | None => Returns ("STRUCTURAL_ONLY"%string, [])
            end) as [[level acc]|ty msg]; [|discriminate].
  destruct (format_extracted_fields ef) as [fields|ty msg]; [|discriminate].
  injection H as <-. reflexivity.
Qed.

(** [_validate_structural] raises exactly when the extracted
    [government_warning] is present but not a dict; otherwise it checks
    brand name, ABV, net contents and bottler in that order, then gives one
    [government_warning] result when the warning is not present, or a
    header and a text result when it is. *)
Theorem validate_structural_shape_fields (py_str : pyval -> string) (ef : pydict) :
  (forall ty msg, validate_structural py_str ef = Raises ty msg ->
     exists v, dict_get ef "government_warning" = Some v /\ forall d, v <> PyDict d) /\
  ((exists v, dict_get ef "government_warning" = Some v /\ forall d, v <> PyDict d) ->
     exists ty msg, validate_structural py_str ef = Raises ty msg) /\
  (forall s, validate_structural py_str ef = Returns s ->
     exists w, government_warning_of ef = Returns w /\
     map vr_field_name s =
       (["brand_name"; "abv"; "net_contents"; "bottler"] ++
        if py_truthy (get_or_none w "present")
        then ["government_warning_header"; "government_warning_text"]
        else ["government_warning"])%list%string).
Proof.
  unfold validate_structural, government_warning_of.
  split; [|split].
  - intros ty msg. destruct (dict_get ef "government_warning") as [v|]; [|discriminate].
    intros H. exists v. split; [reflexivity|]. intros d ->. discriminate.
  - intros [v [Hv Hn]]. rewrite Hv.
    destruct v; try (do 2 eexists; reflexivity). exfalso. apply (Hn d). reflexivity.
  - intros s H. destruct (dict_get ef "government_warning") as [v|].
    + destruct v; try discriminate. injection H as <-. exists d. split; [reflexivity|].
      unfold presence_check.
      destruct (py_truthy (get_or_none ef "brand_name"));
      destruct (is_none (get_or_none ef "alcohol_content_numeric"));
      destruct (py_truthy (get_or_none ef "net_contents"));
      destruct (py_truthy (get_or_none ef "bottler_info"));
      destruct (py_truthy (get_or_none d "present"));
      try destruct (py_truthy (get_or_none d "header_all_caps")); reflexivity.
    + injection H as <-. exists []. split; [reflexivity|].
      unfold presence_check.
      destruct (py_truthy (get_or_none ef "brand_name"));
      destruct (is_none (get_or_none ef "alcohol_content_numeric"));
      destruct (py_truthy (get_or_none ef "net_contents"));
      destruct (py_truthy (get_or_none ef "bottler_info")); reflexivity.
Qed.

(** ** Concrete runs *)

Local Open Scope string_scope.

Definition sample_record : batch_record :=
  {| br_job_id := "job-1"; br_status := Pending; br_created_at := 100; br_updated_at := 100;
     br_total_images := 2; br_processed_images := 0; br_results := [];
     br_completed_at := None; br_summary := None; br_error := None |}.

(** One readable job file and one that cannot be decoded. *)
Definition sample_store : jm_store :=
  [("job-1"%string, Some sample_record); ("job-2"%string, None)].

Definition sample_result (status : string) (t : Z) : jdict :=
  [("status"%string, JStr status); ("processing_time_seconds"%string, JInt t)].

Lemma job_file_missing_or_unreadable_witness :
  store_find "job-2" sample_store = Some None /\
  get_job "job-2" sample_store = None /\
  append_result "job-2" (sample_result "COMPLIANT" 1) 200 sample_store = (false, sample_store).
Proof.
  assert (H : store_find "job-2" sample_store = Some None) by reflexivity.
  destruct (job_file_missing_or_unreadable "job-2" sample_store (or_intror H))
    as [Hg [_ [Ha _]]].
  split; [exact H|]. split; [exact Hg | apply Ha].
Defined.

Lemma update_job_fields_witness :
  store_find "job-1" sample_store = Some (Some sample_record) /\
  exists st' b',
    update_job "job-1" (Some Cancelled) None None None 200 sample_store = (true, st') /\
    get_job "job-1" st' = Some b' /\ br_updated_at b' = 200 /\ br_status b' = Cancelled /\
    br_completed_at b' = Some 200 /\ br_results b' = [] /\ br_created_at b' = 100 /\
    (forall k, k <> "job-1"%string -> store_find k st' = store_find k sample_store).
Proof.
  assert (H : store_find "job-1" sample_store = Some (Some sample_record)) by reflexivity.
  split; [exact H|].
  exact (update_job_fields "job-1" (Some Cancelled) None None None 200 sample_store
           sample_record H).
Defined.

Lemma append_results_accumulate_witness :
  store_find "job-1" sample_store = Some (Some sample_record) /\
  [sample_result "COMPLIANT" 1; sample_result "ERROR" 0] <> [] /\
  exists b', get_job "job-1" (fold_left (fun st r => snd (append_result "job-1" r 200 st))
                                [sample_result "COMPLIANT" 1; sample_result "ERROR" 0]
                                sample_store) = Some b' /\
    br_processed_images b' = 2.
Proof.
  assert (H : store_find "job-1" sample_store = Some (Some sample_record)) by reflexivity.
  assert (Hne : [sample_result "COMPLIANT" 1; sample_result "ERROR" 0] <> []) by discriminate.
  split; [exact H|]. split; [exact Hne|].
  destruct (append_results_accumulate "job-1" _ 200 sample_store sample_record H Hne)
    as [_ [b' [Hg [_ [Hp _]]]]].
  exists b'. split; [exact Hg|]. rewrite Hp. reflexivity.
Defined.

Lemma cancel_lost_to_concurrent_append_witness :
  store_find "job-1" sample_store = Some (Some sample_record) /\
  exists st',
    run_rmw_schedule (update_record (Some Cancelled) None None None 210)
                     (append_record (sample_result "COMPLIANT" 1) 200) "job-1"
                     [true; false; false; true] RmwStart RmwStart sample_store
      = (RmwReturned true, RmwReturned true, st') /\
    get_job "job-1" st' = Some (append_record (sample_result "COMPLIANT" 1) 200 sample_record) /\
    br_status (append_record (sample_result "COMPLIANT" 1) 200 sample_record) = Pending.
Proof.
  assert (H : store_find "job-1" sample_store = Some (Some sample_record)) by reflexivity.
  split; [exact H|].
  exact (cancel_lost_to_concurrent_append "job-1" (sample_result "COMPLIANT" 1) 200 210
           sample_store sample_record H).
Defined.

Lemma process_batch_job_missing_file_witness :
  store_find "job-3" sample_store = None /\
  process_batch_job (Returns tt) (fun _ => Returns (sample_result "COMPLIANT" 1)) "job-3"
    ["/app/tmp/a.jpg"; "/app/tmp/b.jpg"] 200 sample_store = sample_store.
Proof.
  assert (H : store_find "job-3" sample_store = None) by reflexivity.
  split; [exact H|].
  exact (process_batch_job_missing_file (Returns tt) (fun _ => Returns (sample_result "COMPLIANT" 1))
           "job-3" ["/app/tmp/a.jpg"; "/app/tmp/b.jpg"] 200 sample_store (or_introl H)).
Defined.

(** A validator whose second result has no [processing_time_seconds] and
    whose third has no [status]. *)
Definition sample_validate (p : string) : call_result jdict :=
  if String.eqb p "/app/tmp/b.jpg" then Returns [("status"%string, JStr "COMPLIANT")]
  else if String.eqb p "/app/tmp/c.jpg" then Returns [("processing_time_seconds"%string, JInt 1)]
  else Returns (sample_result "NON_COMPLIANT" 2).

Lemma process_batch_job_completes_witness :
  store_find "job-1" sample_store = Some (Some sample_record) /\
  exists b',
    get_job "job-1" (process_batch_job (Returns tt) sample_validate "job-1"
                       ["/app/tmp/a.jpg"; "/app/tmp/b.jpg"; "/app/tmp/c.jpg"] 200 sample_store)
      = Some b' /\
    br_status b' = Completed /\ length (br_results b') = 5%nat /\
    br_processed_images b' = 5.
Proof.
  assert (H : store_find "job-1" sample_store = Some (Some sample_record)) by reflexivity.
  split; [exact H|].
  destruct (process_batch_job_completes sample_validate "job-1"
              ["/app/tmp/a.jpg"; "/app/tmp/b.jpg"; "/app/tmp/c.jpg"]
              200 sample_store sample_record H) as [b' [total [Hg [Hs [_ [Hl [Hp _]]]]]]].
  exists b'. split; [exact Hg|]. split; [exact Hs|].
  assert (Hl3 : length (br_results b') = 5%nat) by (rewrite Hl; vm_compute; reflexivity).
  split; [exact Hl3|]. rewrite Hp by discriminate. rewrite Hl3. reflexivity.
Defined.

Lemma process_batch_job_init_failure_witness :
  store_find "job-1" sample_store = Some (Some sample_record) /\
  exists b',
    get_job "job-1" (process_batch_job (Raises "RuntimeError" "Ollama not reachable")
                       sample_validate "job-1" ["/app/tmp/a.jpg"] 200 sample_store) = Some b' /\
    br_status b' = Failed /\ br_completed_at b' = Some 200 /\
    br_error b' = Some "Ollama backend unavailable: Ollama not reachable"%string /\
    br_results b' = [].
Proof.
  assert (H : store_find "job-1" sample_store = Some (Some sample_record)) by reflexivity.
  split; [exact H|].
  exact (process_batch_job_init_failure "RuntimeError" "Ollama not reachable" sample_validate
           "job-1" ["/app/tmp/a.jpg"] 200 sample_store sample_record H).
Defined.

(** Fields extracted from a label with only a brand name on it. *)
Definition sample_fields : pydict :=
  [("brand_name"%string, PyStr "ACME"); ("alcohol_content_numeric"%string, PyNone)].

Definition sample_steps (gt : option pydict) : call_result jdict :=
  validate_label_steps (fun _ => EmptyString) (fun v => v) (fun _ => Returns sample_fields)
    (fun _ _ => Returns []) (PyInt 1) gt "ACME".

Definition sample_report : jdict :=
  match sample_steps None with Returns r => r | Raises _ _ => [] end.

Lemma validate_label_steps_status_witness :
  sample_steps None = Returns sample_report /\
  jdict_get sample_report "status" = Some (JStr "NON_COMPLIANT") /\
  jdict_get sample_report "validation_level" = Some (JStr "STRUCTURAL_ONLY").
Proof.
  assert (H : sample_steps None = Returns sample_report) by (vm_compute; reflexivity).
  split; [exact H|].
  destruct (validate_label_steps_status _ _ _ _ _ None "ACME" sample_report H)
    as [status [level [viols [Hs [Hl [Hv [Hlev _]]]]]]].
  assert (Hst : jdict_get sample_report "status" = Some (JStr "NON_COMPLIANT"))
    by (vm_compute; reflexivity).
  split; [exact Hst|]. rewrite Hl, Hlev. reflexivity.
Defined.

Lemma validate_label_steps_warnings_witness :
  sample_steps None = Returns sample_report /\
  jdict_get sample_report "warnings" =
    Some (JList [JStr no_ground_truth_warning; JStr (ocr_quality_warning 3)]).
Proof.
  assert (H : sample_steps None = Returns sample_report) by (vm_compute; reflexivity).
  split; [exact H|].
  rewrite (validate_label_steps_warnings (fun _ => EmptyString) (fun v => v)
             (fun _ => Returns sample_fields) (fun _ _ => Returns []) (PyInt 1) None "ACME"
             sample_report sample_fields
             (match validate_structural (fun _ => EmptyString) sample_fields with
              | Returns s => s | Raises _ _ => [] end)
             eq_refl ltac:(vm_compute; reflexivity) H).
  vm_compute. reflexivity.
Defined.

Local Close Scope string_scope.
